(** * omnihash: the resumable crawl ledger and the hash recorder

    A shallow embedding of [main.go]: the work ledger ([Tasks]), the hash
    store ([Storage]) and the body of the crawl loop of [main], with the
    properties the specification states about them.

    The program talks to two SQLite files through Go's [database/sql].  A
    database is modelled by the rows of its tables, a prepared statement by
    the function its SQL text denotes, and [database/sql] by the two things
    the program depends on: the count of bound arguments is checked against
    the statement's placeholders before the driver runs, and a statement
    prepared on the [*sql.DB] runs on a pool connection of its own, outside
    any open [*sql.Tx].  Input/output faults of the engine are not
    modelled: a statement fails only where a constraint of the schema or
    the argument check makes it fail.  [log.Printf] writes to the standard
    error stream only and is left out; [log.Fatal] ends the process and is
    the [Fatal] outcome. *)

From Stdlib Require Import String Ascii List ZArith Lia Bool DecimalString.
Import ListNotations.

Open Scope string_scope.
Open Scope Z_scope.
Open Scope list_scope.

(** ** Go values *)

(** Go's [int] on the 64-bit targets: two's complement, wrapping. *)
Module GoInt.

Definition min_int : Z := - 2 ^ 63.
Definition max_int : Z := 2 ^ 63 - 1.

Definition wrap (z : Z) : Z := (z + 2 ^ 63) mod 2 ^ 64 - 2 ^ 63.

(** [x++] and [x--]. *)
Definition incr (x : Z) : Z := wrap (x + 1).
Definition decr (x : Z) : Z := wrap (x - 1).

Definition in_range (z : Z) : Prop := min_int <= z <= max_int.

End GoInt.

(** A Go [error] is its message; [nil] is the absence of one. *)
Definition error : Type := string.

(** A Go call returning [(v, err)]. *)
Inductive result (A : Type) : Type :=
| Ok (a : A)
| Err (e : error).
Arguments Ok {A} a.
Arguments Err {A} e.

(** A computation of the process: it goes on with a value, or [log.Fatal]
    has ended the process with a message. *)
Inductive proc (A : Type) : Type :=
| Run (a : A)
| Fatal (e : error).
Arguments Run {A} a.
Arguments Fatal {A} e.

Definition bind {A B : Type} (m : proc A) (k : A -> proc B) : proc B :=
  match m with
  | Run a => k a
  | Fatal e => Fatal e
  end.

Notation "x <- m ;; k" := (bind m (fun x => k))
  (at level 61, m at next level, right associativity).

(** [fmt.Sprint] of an integer ([%d]). *)
Definition itoa (z : Z) : string := NilZero.string_of_int (Z.to_int z).

(** ** database/sql *)

Module sql.

(** A value bound to a placeholder or read from a column. *)
Inductive value : Type :=
| VText (s : string)
| VInt (z : Z)
| VBlob (b : list Z).

(** [sql.Result]. *)
Record Result : Type := { LastInsertId : Z; RowsAffected : Z }.

(** [sql.Open(driver, dataSourceName)] is lazy: it records the name and
    opens connections on demand.  The handle is the name it was opened
    with and the tables of the file of that name. *)
Record DB (T : Type) : Type := { dataSourceName : string; tables : T }.
Arguments dataSourceName {T} d.
Arguments tables {T} d.

Definition Open {T : Type} (fs : string -> T) (name : string) : DB T :=
  {| dataSourceName := name; tables := fs name |}.

(** A prepared statement over tables [T] yielding [R]: the number of its
    placeholders (the driver's [NumInput]) and what it does. *)
Record Stmt (T R : Type) : Type :=
  { NumInput : nat;
    denote : list value -> T -> result (T * R) }.
Arguments NumInput {T R} s.
Arguments denote {T R} s.

Definition ErrNoRows : error := "sql: no rows in result set".

(** [driverArgsConnLocked]: the arguments are counted before the driver
    sees them. *)
Definition ErrArgs (want got : nat) : error :=
  String.append "sql: expected "
    (String.append (itoa (Z.of_nat want))
       (String.append " arguments, got " (itoa (Z.of_nat got)))).

(** [Stmt.Exec(args...)] and [Stmt.Query(args...)]. *)
Definition call {T R : Type} (s : Stmt T R) (args : list value) (t : T)
  : result (T * R) :=
  if Nat.eqb (List.length args) (NumInput s)
  then denote s args t
  else Err (ErrArgs (NumInput s) (List.length args)).

Definition Exec {T : Type} (s : Stmt T Result) (args : list value) (d : DB T)
  : result (DB T * Result) :=
  match call s args (tables d) with
  | Ok (t', r) => Ok ({| dataSourceName := dataSourceName d; tables := t' |}, r)
  | Err e => Err e
  end.

(** [Stmt.QueryRow(args...)]: the first row of the result; an error is
    kept until [Scan], and so is the absence of a row. *)
Definition QueryRow {T : Type} (s : Stmt T (list (list value)))
  (args : list value) (d : DB T) : result (list value) :=
  match call s args (tables d) with
  | Ok (_, row :: _) => Ok row
  | Ok (_, []) => Err ErrNoRows
  | Err e => Err e
  end.

(** [Row.Scan] into an [*int] and into a [*string]. *)
Definition scan_int (v : value) : result Z :=
  match v with
  | VInt z => Ok z
  | _ => Err "sql: Scan error: converting to int"
  end.

Definition scan_string (v : value) : result string :=
  match v with
  | VText s => Ok s
  | VInt z => Ok (itoa z)
  | VBlob _ => Err "sql: Scan error: converting to string"
  end.

Definition ErrScanCount : error := "sql: wrong number of destination arguments in Scan".

Definition Scan1 {A : Type} (f : value -> result A) (row : result (list value))
  : result A :=
  match row with
  | Err e => Err e
  | Ok [v] => f v
  | Ok _ => Err ErrScanCount
  end.

Definition Scan2 {A B : Type} (f : value -> result A) (g : value -> result B)
  (row : result (list value)) : result (A * B) :=
  match row with
  | Err e => Err e
  | Ok [v; w] =>
      match f v with
      | Err e => Err e
      | Ok a => match g w with
                | Err e => Err e
                | Ok b => Ok (a, b)
                end
      end
  | Ok _ => Err ErrScanCount
  end.

End sql.

(** ** The work ledger *)

Record Job : Type := { collection : string; page : Z }.

(** A row of the [done] table. *)
Record DoneRecord : Type :=
  { done_name : string; done_page : Z; done_reason : string }.

(** The tables of the ledger's database, rows in rowid order. *)
Record LedgerTables : Type :=
  { jobs : list Job;            (* name PRIMARY KEY, page *)
    done : list DoneRecord }.   (* name PRIMARY KEY, page, reason *)

Definition has_job (name : string) (rows : list Job) : bool :=
  existsb (fun j => String.eqb (collection j) name) rows.

Definition has_done (name : string) (rows : list DoneRecord) : bool :=
  existsb (fun d => String.eqb (done_name d) name) rows.

(** [ORDER BY page ASC LIMIT 1]: a row of least page, the earliest such. *)
Fixpoint order_by_page_limit_1 (rows : list Job) : option Job :=
  match rows with
  | [] => None
  | j :: rest =>
      match order_by_page_limit_1 rest with
      | None => Some j
      | Some m => if page j <=? page m then Some j else Some m
      end
  end.

Module Tasks.

Import sql.

Definition no_change : Result := {| LastInsertId := 0; RowsAffected := 0 |}.
Definition changed (n : Z) : Result := {| LastInsertId := 0; RowsAffected := n |}.

(** The six statements [NewTasks] prepares.  Every call site of the program
    binds a string to a [name] placeholder and an integer to a [page]
    placeholder; on arguments of another shape a statement matches no row. *)

(** [SELECT name, page FROM jobs ORDER BY page ASC LIMIT 1;] *)
Definition next : Stmt LedgerTables (list (list value)) :=
  {| NumInput := 0;
     denote := fun _ t =>
       Ok (t, match order_by_page_limit_1 (jobs t) with
              | None => []
              | Some j => [[VText (collection j); VInt (page j)]]
              end) |}.

(** [UPDATE jobs SET page = page + 1 WHERE name = (?);]  The column is an
    SQLite INTEGER; the sum is taken in [Z] (SQLite does not wrap either:
    past the 64-bit range it goes over to a REAL, which a page that starts
    at 1 and grows by one per batch does not reach). *)
Definition increment : Stmt LedgerTables Result :=
  {| NumInput := 1;
     denote := fun args t =>
       match args with
       | [VText name] =>
           Ok ({| jobs := map (fun j => if String.eqb (collection j) name
                                        then {| collection := collection j;
                                                page := page j + 1 |}
                                        else j) (jobs t);
                  done := done t |},
               changed (if has_job name (jobs t) then 1 else 0))
       | _ => Ok (t, no_change)
       end |}.

(** [INSERT INTO jobs (name, page) VALUES (?, ?) ON CONFLICT DO NOTHING;] *)
Definition add : Stmt LedgerTables Result :=
  {| NumInput := 2;
     denote := fun args t =>
       match args with
       | [VText name; VInt p] =>
           if has_job name (jobs t)
           then Ok (t, no_change)
           else Ok ({| jobs := jobs t ++ [{| collection := name; page := p |}];
                       done := done t |}, changed 1)
       | _ => Ok (t, no_change)
       end |}.

(** [DELETE FROM jobs WHERE name = (?);] *)
Definition remove : Stmt LedgerTables Result :=
  {| NumInput := 1;
     denote := fun args t =>
       match args with
       | [VText name] =>
           Ok ({| jobs := filter (fun j => negb (String.eqb (collection j) name))
                                 (jobs t);
                  done := done t |},
               changed (if has_job name (jobs t) then 1 else 0))
       | _ => Ok (t, no_change)
       end |}.

(** [INSERT INTO done (name, page, reason) VALUES (?, ?, ?);] *)
Definition remember : Stmt LedgerTables Result :=
  {| NumInput := 3;
     denote := fun args t =>
       match args with
       | [VText name; VInt p; VText reason] =>
           if has_done name (done t)
           then Err "UNIQUE constraint failed: done.name"
           else Ok ({| jobs := jobs t;
                       done := done t ++ [{| done_name := name; done_page := p;
                                             done_reason := reason |}] |},
                    changed 1)
       | _ => Err "datatype mismatch"
       end |}.

(** [SELECT 1 FROM done WHERE name = (?);] *)
Definition hasDone : Stmt LedgerTables (list (list value)) :=
  {| NumInput := 1;
     denote := fun args t =>
       match args with
       | [VText name] => Ok (t, if has_done name (done t) then [[VInt 1]] else [])
       | _ => Ok (t, [])
       end |}.

(** The [Tasks] struct: the database handle and the live count; the
    statements above are its other fields. *)
Record t : Type := { db : DB LedgerTables; length : Z }.

Definition Len (x : t) : Z := length x.

Definition Next (x : t) : proc Job :=
  match Scan2 scan_string scan_int (QueryRow next [] (db x)) with
  | Err e => Fatal e
  | Ok (c, p) => Run {| collection := c; page := p |}
  end.

Definition Increment (name : string) (x : t) : proc t :=
  match Exec increment [VText name] (db x) with
  | Err e => Fatal e
  | Ok (d, _) => Run {| db := d; length := length x |}
  end.

(** [t.hasDone.QueryRow()] is called with no argument for the statement's
    one placeholder. *)
Definition Add (name : string) (x : t) : proc t :=
  let insert :=
    match Exec add [VText name; VInt 1] (db x) with
    | Err e => Fatal e
    | Ok (d, _) => Run {| db := d; length := GoInt.incr (length x) |}
    end in
  match Scan1 scan_int (QueryRow hasDone [] (db x)) with
  | Ok done => if done =? 1 then Run x else insert
  | Err _ => insert
  end.

Definition Remove (job : Job) (reason : string) (x : t) : proc t :=
  match Exec remove [VText (collection job)] (db x) with
  | Err e => Fatal e
  | Ok (d, _) =>
      let d' := match Exec remember
                        [VText (collection job); VInt (page job); VText reason] d with
                | Err _ => d
                | Ok (d', _) => d'
                end in
      Run {| db := d'; length := GoInt.decr (length x) |}
  end.

(** The two tables as read through the handle. *)
Definition active (x : t) : list Job := jobs (tables (db x)).
Definition resolved (x : t) : list DoneRecord := done (tables (db x)).

End Tasks.

(** [NewTasks(dbPath)]: the ledger over the file [dbPath]; the live count
    starts as [SELECT COUNT( * ) FROM jobs]. *)
Definition NewTasks (fs : string -> LedgerTables) (dbPath : string) : result Tasks.t :=
  let d := sql.Open fs dbPath in
  Ok {| Tasks.db := d; Tasks.length := Z.of_nat (List.length (jobs (sql.tables d))) |}.

(** ** encoding/hex *)

Module hex.

(** [reverseHexTable]: the value of a hexadecimal digit, [0xff] for any
    other byte. *)
Definition reverseHexTable (c : ascii) : Z :=
  let n := Z.of_N (N_of_ascii c) in
  if (48 <=? n) && (n <=? 57) then n - 48
  else if (97 <=? n) && (n <=? 102) then n - 87
  else if (65 <=? n) && (n <=? 70) then n - 55
  else 255.

(** The two errors; Go prints the offending byte as a code point, here it
    stands as it is (the program only logs the message). *)
Definition ErrLength : error := "encoding/hex: odd length hex string".
Definition InvalidByteError (c : ascii) : error :=
  String.append "encoding/hex: invalid byte: " (String c EmptyString).

(** [DecodeString]: the bytes decoded before the first error, and the
    error. *)
Fixpoint DecodeString (s : string) : list Z * option error :=
  match s with
  | EmptyString => ([], None)
  | String p EmptyString =>
      if reverseHexTable p >? 15 then ([], Some (InvalidByteError p))
      else ([], Some ErrLength)
  | String p (String q rest) =>
      let a := reverseHexTable p in
      let b := reverseHexTable q in
      if a >? 15 then ([], Some (InvalidByteError p))
      else if b >? 15 then ([], Some (InvalidByteError q))
      else let (bs, e) := DecodeString rest in
           (Z.lor (Z.shiftl a 4) b :: bs, e)
  end.

End hex.

(** ** The hash store *)

(** An entry of the [result] array of an item's file listing. *)
Record File : Type := { Hash : string; Name : string }.

Record ItemMetadata : Type := { Files : list File; IsCollection : bool }.

(** The tables of the hash database, rows in rowid order.  [hashes.item]
    is declared to reference a table [archive_item] that does not exist;
    SQLite enforces foreign keys only when asked to, and the program does
    not ask. *)
Record HashTables : Type :=
  { archive_items : list (Z * string);   (* id AUTOINCREMENT, name UNIQUE *)
    sqlite_sequence : Z;                  (* the largest id ever given out *)
    hashes : list (list Z * Z) }.         (* hash PRIMARY KEY, item *)

Definition has_item (name : string) (rows : list (Z * string)) : bool :=
  existsb (fun r => String.eqb (snd r) name) rows.

Definition blob_eqb (a b : list Z) : bool :=
  if list_eq_dec Z.eq_dec a b then true else false.

Definition has_hash (h : list Z) (rows : list (list Z * Z)) : bool :=
  existsb (fun r => blob_eqb (fst r) h) rows.

(** [strings.HasPrefix(s, prefix)] and the slice [s[n:]]. *)
Definition HasPrefix (s prefix : string) : bool := String.prefix prefix s.

Fixpoint slice_from (n : nat) (s : string) : string :=
  match n, s with
  | O, _ => s
  | S n', String _ rest => slice_from n' rest
  | S _, EmptyString => EmptyString
  end.

Module Storage.

Import sql.

(** [INSERT INTO archive_items (name) VALUES (?);] *)
Definition insName : Stmt HashTables Result :=
  {| NumInput := 1;
     denote := fun args t =>
       match args with
       | [VText name] =>
           if has_item name (archive_items t)
           then Err "UNIQUE constraint failed: archive_items.name"
           else
             let id := sqlite_sequence t + 1 in
             Ok ({| archive_items := archive_items t ++ [(id, name)];
                    sqlite_sequence := id;
                    hashes := hashes t |},
                 {| LastInsertId := id; RowsAffected := 1 |})
       | _ => Err "datatype mismatch"
       end |}.

(** [INSERT INTO hashes (hash, item) VALUES (?, ?);] *)
Definition insHash : Stmt HashTables Result :=
  {| NumInput := 2;
     denote := fun args t =>
       match args with
       | [VBlob h; VInt id] =>
           if has_hash h (hashes t)
           then Err "UNIQUE constraint failed: hashes.hash"
           else Ok ({| archive_items := archive_items t;
                       sqlite_sequence := sqlite_sequence t;
                       hashes := hashes t ++ [(h, id)] |},
                    {| LastInsertId := Z.of_nat (List.length (hashes t)) + 1;
                       RowsAffected := 1 |})
       | _ => Err "datatype mismatch"
       end |}.

(** A [*sql.Tx]: the statements executed through the handle ([tx.Exec],
    [tx.Stmt(s).Exec]), which take effect at [Commit] and are dropped by
    [Rollback].  A statement prepared on the [*sql.DB] and executed as
    [s.Exec] is not among them: [db.Begin] reserves one connection for the
    transaction, and [Stmt.Exec] takes another connection of the pool,
    where SQLite commits the statement on its own; the [BEGIN] of the
    reserved connection is deferred and holds no lock against it.
    [NewEntry] executes [s.insName] and [s.insHash] in this way, so its
    transaction stays empty. *)
Record Tx : Type := { pending : list (Stmt HashTables Result * list value) }.

Definition Begin (d : DB HashTables) : result Tx := Ok {| pending := [] |}.

Definition Rollback (tx : Tx) (d : DB HashTables) : DB HashTables := d.

Definition Commit (tx : Tx) (d : DB HashTables) : DB HashTables :=
  fold_left (fun d' w => match Exec (fst w) (snd w) d' with
                         | Ok (d'', _) => d''
                         | Err _ => d'
                         end) (pending tx) d.

(** The [Storage] struct: the database handle; [insName] and [insHash] are
    its other fields. *)
Record t : Type := { db : DB HashTables }.

Definition generated (suffix : string) : bool :=
  String.eqb suffix "_archive.torrent" || String.eqb suffix "_files.xml"
  || String.eqb suffix "_meta.sqlite" || String.eqb suffix "_meta.xml"
  || String.eqb suffix "_reviews.xml".

(** One turn of the loop over [im.Files]: the database and the [inserted]
    flag before and after the file [f]. *)
Definition file_step (item : string) (id : Z) (st : DB HashTables * bool) (f : File)
  : DB HashTables * bool :=
  if String.eqb (Name f) "__ia_thumb.jpg" then st
  else if HasPrefix (Name f) item
          && generated (slice_from (String.length item) (Name f)) then st
  else if negb (Nat.eqb (String.length (Hash f)) 40) then st
  else
    match hex.DecodeString (Hash f) with
    | (_, Some _) => st
    | (hexed, None) =>
        match Exec insHash [VBlob hexed; VInt id] (fst st) with
        | Err _ => st
        | Ok (d, _) => (d, true)
        end
    end.

(** [NewEntry(im, item)]: the store afterwards and the returned error. *)
Definition NewEntry (im : ItemMetadata) (item : string) (s : t) : t * option error :=
  if Nat.eqb (List.length (Files im)) 0 then (s, Some "no files")
  else
    match Begin (db s) with
    | Err e => (s, Some e)
    | Ok tx =>
        match Exec insName [VText item] (db s) with
        | Err e => ({| db := Rollback tx (db s) |}, Some e)
        | Ok (d, res) =>
            let id := LastInsertId res in
            let (d', inserted) := fold_left (file_step item id) (Files im) (d, false) in
            if negb inserted
            then ({| db := Rollback tx d' |}, Some "no valid files")
            else ({| db := Commit tx d' |}, None)
        end
    end.

(** The two tables as read through the handle. *)
Definition items (s : t) : list (Z * string) := archive_items (tables (db s)).
Definition rows (s : t) : list (list Z * Z) := hashes (tables (db s)).

End Storage.

(** [NewStorage(dbPath)]: the store is opened on the literal name
    ["hashes.db"]; [CREATE TABLE IF NOT EXISTS] leaves the rows of an
    existing file as they are. *)
Definition NewStorage (fs : string -> HashTables) (dbPath : string) : result Storage.t :=
  Ok {| Storage.db := sql.Open fs "hashes.db" |}.

(** ** The archive *)

(** The archive's answers, as far as the program reads them: the
    identifiers of a page of a collection, the media type of an item, the
    files of an item; or the error of the request or of its decoding. *)
Record Archive : Type :=
  { advancedsearch : string -> Z -> Z -> result (list string);
    mediatype : string -> result string;
    files : string -> result (list File) }.

(** [CollectionSubset]: [Resp.Buf], the part the program reads. *)
Record CollectionSubset : Type := { Buf : list string }.

Definition NewCollectionSubset (a : Archive) (collectionName : string) (count page : Z)
  : result CollectionSubset :=
  if (count <? 1) || (page <? 1)
  then Err (String.append "count ("
             (String.append (itoa count)
               (String.append ") and page ("
                 (String.append (itoa page) ") must be >= 1"))))
  else
    match advancedsearch a collectionName count page with
    | Err e => Err e
    | Ok names => Ok {| Buf := names |}
    end.

Definition NewItemMetadata (a : Archive) (item : string) : result ItemMetadata :=
  match mediatype a item with
  | Err e => Err e
  | Ok m =>
      let isCollection := String.eqb m "collection" in
      if isCollection then Ok {| Files := []; IsCollection := isCollection |}
      else
        match files a item with
        | Err e => Err e
        | Ok fs => Ok {| Files := fs; IsCollection := isCollection |}
        end
  end.

(** ** The crawl loop *)

Definition batchSize : Z := 1000.

(** The two stores as the loop sees them. *)
Definition stores : Type := (Tasks.t * Storage.t)%type.

(** One turn of the loop over [co.Resp.Buf] (the pause before it is not
    modelled). *)
Definition item_step (a : Archive) (st : stores) (name : string) : proc stores :=
  match NewItemMetadata a name with
  | Err _ => Run st
  | Ok im =>
      if IsCollection im
      then tasks <- Tasks.Add name (fst st) ;; Run (tasks, snd st)
      else Run (fst st, fst (Storage.NewEntry im name (snd st)))
  end.

Fixpoint items (a : Archive) (names : list string) (st : stores) : proc stores :=
  match names with
  | [] => Run st
  | name :: rest => st' <- item_step a st name ;; items a rest st'
  end.

(** The loop body from the length test of the page on, for the page [co]
    of [job]. *)
Definition batch (a : Archive) (job : Job) (co : CollectionSubset) (st : stores)
  : proc stores :=
  if Nat.eqb (List.length (Buf co)) 0
  then tasks <- Tasks.Remove job "" (fst st) ;; Run (tasks, snd st)
  else
    st' <- items a (Buf co) st ;;
    tasks <- Tasks.Increment (collection job) (fst st') ;;
    Run (tasks, snd st').

(** The body of the [for tasks.Len() > 0] loop of [main], after the test
    of the interrupt channel. *)
Definition loop_body (a : Archive) (st : stores) : proc stores :=
  job <- Tasks.Next (fst st) ;;
  match NewCollectionSubset a (collection job) batchSize (page job) with
  | Ok co => batch a job co st
  | Err _ =>
      let job := {| collection := collection job; page := GoInt.incr (page job) |} in
      match NewCollectionSubset a (collection job) batchSize (page job) with
      | Err e =>
          tasks <- Tasks.Remove job e (fst st) ;; Run (tasks, snd st)
      | Ok co =>
          tasks <- Tasks.Increment (collection job) (fst st) ;;
          batch a job co (tasks, snd st)
      end
  end.

(** ** Runs of the ledger *)

(** The ledger over a new file: no job, no record, count zero. *)
Definition no_rows : LedgerTables := {| jobs := []; done := [] |}.

Definition ledger0 : Tasks.t :=
  {| Tasks.db := sql.Open (fun _ => no_rows) "working.db"; Tasks.length := 0 |}.

Inductive op : Type :=
| OpAdd (name : string)
| OpIncrement (name : string)
| OpRemove (job : Job) (reason : string).

Definition apply_op (o : op) (x : Tasks.t) : proc Tasks.t :=
  match o with
  | OpAdd name => Tasks.Add name x
  | OpIncrement name => Tasks.Increment name x
  | OpRemove job reason => Tasks.Remove job reason x
  end.

Fixpoint run_ops (ops : list op) (x : Tasks.t) : proc Tasks.t :=
  match ops with
  | [] => Run x
  | o :: rest => x' <- apply_op o x ;; run_ops rest x'
  end.

(** The primary keys of the two tables: no two rows of a name. *)
Definition keyed (x : Tasks.t) : Prop :=
  NoDup (map collection (Tasks.active x))
  /\ NoDup (map done_name (Tasks.resolved x)).

(** The stored page of the job of a name. *)
Fixpoint stored_page (name : string) (rows : list Job) : option Z :=
  match rows with
  | [] => None
  | j :: rest =>
      if String.eqb (collection j) name then Some (page j) else stored_page name rest
  end.

(** Ledgers and jobs the examples below run on. *)
Definition job_n : Job := {| collection := "n"; page := 1 |}.

(** [n] was added, then retired; and then added again. *)
Definition retired_n : list op := [OpAdd "n"; OpRemove job_n ""].
Definition readded_n : list op := [OpAdd "n"; OpRemove job_n ""; OpAdd "n"].

Definition ledger_of (rows : list Job) : Tasks.t :=
  {| Tasks.db := {| sql.dataSourceName := "working.db";
                    sql.tables := {| jobs := rows; done := [] |} |};
     Tasks.length := Z.of_nat (List.length rows) |}.

(** The jobs [{A:3, B:1, C:1}]. *)
Definition ledger_ABC : Tasks.t :=
  ledger_of [{| collection := "A"; page := 3 |};
             {| collection := "B"; page := 1 |};
             {| collection := "C"; page := 1 |}].

(** ** The file filter, in the specification's words *)

(** The suffixes of the files the archive generates for an item. *)
Definition suffixes : list string :=
  ["_archive.torrent"; "_files.xml"; "_meta.sqlite"; "_meta.xml"; "_reviews.xml"].

(** The file [f] of [item] is neither the thumbnail nor a generated file,
    its hash string decodes without error to the 20 bytes [bs], and the
    insert of [bs] for the item row [id] into the store [d] succeeds. *)
Definition accepted (item : string) (id : Z) (d : sql.DB HashTables) (f : File)
  (bs : list Z) : Prop :=
  Name f <> "__ia_thumb.jpg"
  /\ (forall suffix, In suffix suffixes -> Name f <> String.append item suffix)
  /\ hex.DecodeString (Hash f) = (bs, None)
  /\ List.length bs = 20%nat
  /\ exists r, sql.Exec Storage.insHash [sql.VBlob bs; sql.VInt id] d = Ok r.

(** Stores and files the examples below run on. *)
Definition no_hashes : HashTables :=
  {| archive_items := []; sqlite_sequence := 0; hashes := [] |}.

Definition store0 : Storage.t := {| Storage.db := sql.Open (fun _ => no_hashes) "hashes.db" |}.

(** The store of [store0] once the item row of [x] is in. *)
Definition store0_with_x : sql.DB HashTables :=
  {| sql.dataSourceName := "hashes.db";
     sql.tables := {| archive_items := [(1, "x")]; sqlite_sequence := 1;
                      hashes := [] |} |}.

Definition sha1_a : string := "000102030405060708090a0b0c0d0e0f10111213".
Definition sha1_b : string := "a9993e364706816aba3e25717850c26c9cd0d89d".

Definition thumb : File := {| Hash := sha1_b; Name := "__ia_thumb.jpg" |}.
Definition x_meta : File := {| Hash := sha1_b; Name := "x_meta.xml" |}.
Definition data_bin : File := {| Hash := sha1_a; Name := "data.bin" |}.
Definition more_bin : File := {| Hash := sha1_b; Name := "more.bin" |}.

Definition only_thumb : ItemMetadata := {| Files := [thumb]; IsCollection := false |}.
Definition three_files : ItemMetadata :=
  {| Files := [thumb; x_meta; data_bin]; IsCollection := false |}.
Definition one_more : ItemMetadata := {| Files := [more_bin]; IsCollection := false |}.

(** Archives the examples below run on: one where every page of every
    collection is empty; one where page 1 cannot be fetched and the later
    pages are empty; one where page 1 cannot be fetched and page 2 lists a
    leaf item and a sub-collection. *)
Definition archive_empty : Archive :=
  {| advancedsearch := fun _ _ _ => Ok [];
     mediatype := fun _ => Err "no such item";
     files := fun _ => Err "no such item" |}.

Definition archive_retry_empty : Archive :=
  {| advancedsearch := fun _ _ p => if p =? 1 then Err "timeout" else Ok [];
     mediatype := fun _ => Err "no such item";
     files := fun _ => Err "no such item" |}.

Definition archive_retry_full : Archive :=
  {| advancedsearch :=
       fun _ _ p => if p =? 1 then Err "timeout" else Ok ["leafA"; "subB"];
     mediatype := fun name => if String.eqb name "subB" then Ok "collection"
                              else Ok "texts";
     files := fun _ => Ok [data_bin] |}.

(** The ledger with the one job [n] at page 1, beside the empty store. *)
Definition seeded : stores := (ledger_of [job_n], store0).

(** ** The rest of [main] *)

(** The seeding of the ledger with the arguments of the command line
    ([os.Args[1:]]). *)
Fixpoint seed (args : list string) (x : Tasks.t) : proc Tasks.t :=
  match args with
  | [] => Run x
  | name :: rest => x' <- Tasks.Add name x ;; seed rest x'
  end.

(** The loop [for tasks.Len() > 0] of [main].  [intr turn] tells whether
    an interrupt is waiting in the channel when the turn [turn] looks at
    it.  The loop need not end; [fuel] bounds the turns, and [None] is a
    run that has more turns than that. *)
Fixpoint crawl (fuel : nat) (a : Archive) (intr : nat -> bool) (turn : nat)
  (st : stores) : option (proc stores) :=
  match fuel with
  | O => None
  | S fuel' =>
      if Tasks.Len (fst st) >? 0
      then if intr turn then Some (Run st)
           else match loop_body a st with
                | Fatal e => Some (Fatal e)
                | Run st' => crawl fuel' a intr (S turn) st'
                end
      else Some (Run st)
  end.

(** [main] over the files [hash_files] and [ledger_files], with the
    arguments [args]. *)
Definition main (fuel : nat) (hash_files : string -> HashTables)
  (ledger_files : string -> LedgerTables) (args : list string) (a : Archive)
  (intr : nat -> bool) : option (proc stores) :=
  match NewStorage hash_files "hashes.db" with
  | Err e => Some (Fatal e)
  | Ok storage =>
      match NewTasks ledger_files "working.db" with
      | Err e => Some (Fatal e)
      | Ok tasks =>
          match seed args tasks with
          | Fatal e => Some (Fatal e)
          | Run tasks' => crawl fuel a intr 0 (tasks', storage)
          end
      end
  end.

(** ** Counts and shapes the further properties speak of *)

(** The calls of [Add] and of [Remove] in a run. *)
Fixpoint adds (ops : list op) : Z :=
  match ops with
  | [] => 0
  | OpAdd _ :: rest => 1 + adds rest
  | _ :: rest => adds rest
  end.

Fixpoint removes (ops : list op) : Z :=
  match ops with
  | [] => 0
  | OpRemove _ _ :: rest => 1 + removes rest
  | _ :: rest => removes rest
  end.

(** A hexadecimal digit, of either case. *)
Definition hex_digit (c : ascii) : bool :=
  let n := Z.of_N (N_of_ascii c) in
  ((48 <=? n) && (n <=? 57)) || ((97 <=? n) && (n <=? 102))
  || ((65 <=? n) && (n <=? 70)).

Fixpoint all_hex (s : string) : bool :=
  match s with
  | EmptyString => true
  | String c rest => hex_digit c && all_hex rest
  end.

(** A hash row as the schema means it: 20 bytes. *)
Definition sha1_row (r : list Z * Z) : Prop :=
  List.length (fst r) = 20%nat /\ Forall (fun b => 0 <= b <= 255) (fst r).

(** The job a new name gets. *)
Definition first_page (name : string) : Job := {| collection := name; page := 1 |}.

(** The record of a collection found empty at its first page. *)
Definition exhausted (name : string) : DoneRecord :=
  {| done_name := name; done_page := 1; done_reason := "" |}.

(** An archive that answers no request. *)
Definition archive_down : Archive :=
  {| advancedsearch := fun _ _ _ => Err "connection refused";
     mediatype := fun _ => Err "connection refused";
     files := fun _ => Err "connection refused" |}.

(** A ledger given by its file name, its two tables and its count. *)
Definition ledger (name : string) (rows : list Job) (recs : list DoneRecord)
  (len : Z) : Tasks.t :=
  {| Tasks.db := {| sql.dataSourceName := name;
                    sql.tables := {| jobs := rows; done := recs |} |};
     Tasks.length := len |}.

(** The arguments that are not among [seen], each at its first
    occurrence. *)
Fixpoint firsts (seen args : list string) : list string :=
  match args with
  | [] => []
  | n :: rest =>
      if existsb (fun m => String.eqb m n) seen then firsts seen rest
      else n :: firsts (seen ++ [n]) rest
  end.

(** What a turn of the loop may do to the two stores: it keeps the stored
    page of every job but the one of [name]; it leaves the done log or
    appends one record of [name]; it only adds to the hash store. *)
Definition keeps_others (name : string) (x x' : Tasks.t) : Prop :=
  forall n p, n <> name ->
              stored_page n (Tasks.active x) = Some p ->
              stored_page n (Tasks.active x') = Some p.

Definition log_step (name : string) (x x' : Tasks.t) : Prop :=
  Tasks.resolved x' = Tasks.resolved x
  \/ exists d, done_name d = name /\ Tasks.resolved x' = Tasks.resolved x ++ [d].

Definition store_grows (s s' : Storage.t) : Prop :=
  exists more_items more_rows,
    Storage.items s' = Storage.items s ++ more_items
    /\ Storage.rows s' = Storage.rows s ++ more_rows.

(** * Properties *)

(** ** Go's [int] *)

Lemma wrap_in_range (z : Z) : GoInt.in_range z -> GoInt.wrap z = z.
Proof.
  unfold GoInt.in_range, GoInt.wrap, GoInt.min_int, GoInt.max_int.
  intros H. rewrite Z.mod_small; lia.
Qed.

Lemma incr_in_range (z : Z) :
  GoInt.min_int <= z < GoInt.max_int -> GoInt.incr z = z + 1.
Proof.
  intros H. apply wrap_in_range.
  unfold GoInt.in_range, GoInt.min_int, GoInt.max_int in *. lia.
Qed.

Lemma decr_in_range (z : Z) :
  GoInt.min_int < z <= GoInt.max_int -> GoInt.decr z = z - 1.
Proof.
  intros H. apply wrap_in_range.
  unfold GoInt.in_range, GoInt.min_int, GoInt.max_int in *. lia.
Qed.

(** ** The ledger's operations, one by one *)

(** Called without its argument, [hasDone] fails before it is run. *)
Lemma hasDone_unbound (d : sql.DB LedgerTables) :
  sql.QueryRow Tasks.hasDone [] d = Err (sql.ErrArgs 1 0).
Proof. reflexivity. Qed.

(** Bound to the name, the same statement answers 1 for a name of the done
    log. *)
Lemma hasDone_bound (name : string) (d : sql.DB LedgerTables) :
  has_done name (done (sql.tables d)) = true ->
  sql.Scan1 sql.scan_int (sql.QueryRow Tasks.hasDone [sql.VText name] d) = Ok 1.
Proof.
  intros H. unfold sql.QueryRow, sql.call. cbn. now rewrite H.
Qed.

(** [Add] goes on to its insert whatever the done log holds. *)
Lemma Add_spec (name : string) (x : Tasks.t) :
  exists x',
    Tasks.Add name x = Run x'
    /\ Tasks.active x' =
         (if has_job name (Tasks.active x) then Tasks.active x
          else Tasks.active x ++ [{| collection := name; page := 1 |}])
    /\ Tasks.resolved x' = Tasks.resolved x
    /\ Tasks.Len x' = GoInt.incr (Tasks.Len x)
    /\ sql.dataSourceName (Tasks.db x') = sql.dataSourceName (Tasks.db x).
Proof.
  unfold Tasks.Add. rewrite hasDone_unbound.
  unfold sql.Scan1, sql.Exec, sql.call, Tasks.active, Tasks.resolved, Tasks.Len.
  cbn [List.length Nat.eqb sql.NumInput Tasks.add sql.denote].
  destruct (has_job name (jobs (sql.tables (Tasks.db x)))) eqn:E;
    eexists; (split; [reflexivity|]); cbn; rewrite ?E; auto.
Qed.

Lemma Increment_spec (name : string) (x : Tasks.t) :
  exists x',
    Tasks.Increment name x = Run x'
    /\ Tasks.active x' =
         map (fun j => if String.eqb (collection j) name
                       then {| collection := collection j; page := page j + 1 |}
                       else j) (Tasks.active x)
    /\ Tasks.resolved x' = Tasks.resolved x
    /\ Tasks.Len x' = Tasks.Len x.
Proof.
  eexists. split; [reflexivity|]. cbn. auto.
Qed.

Lemma Remove_spec (job : Job) (reason : string) (x : Tasks.t) :
  exists x',
    Tasks.Remove job reason x = Run x'
    /\ Tasks.active x' =
         filter (fun j => negb (String.eqb (collection j) (collection job)))
                (Tasks.active x)
    /\ Tasks.resolved x' =
         (if has_done (collection job) (Tasks.resolved x) then Tasks.resolved x
          else Tasks.resolved x
                 ++ [{| done_name := collection job; done_page := page job;
                        done_reason := reason |}])
    /\ Tasks.Len x' = GoInt.decr (Tasks.Len x).
Proof.
  unfold Tasks.Remove, sql.Exec, sql.call, Tasks.active, Tasks.resolved, Tasks.Len.
  cbn [List.length Nat.eqb sql.NumInput Tasks.remove Tasks.remember sql.denote
       sql.tables sql.dataSourceName jobs done].
  destruct (has_done (collection job) (done (sql.tables (Tasks.db x)))) eqn:E;
    eexists; (split; [reflexivity|]); cbn; auto.
Qed.

Lemma order_by_page_limit_1_none (rows : list Job) :
  order_by_page_limit_1 rows = None <-> rows = [].
Proof.
  destruct rows as [|j rest]; cbn; [tauto|].
  destruct (order_by_page_limit_1 rest) as [m|]; [destruct (page j <=? page m)|];
    split; discriminate.
Qed.

Lemma order_by_page_limit_1_least (rows : list Job) (m : Job) :
  order_by_page_limit_1 rows = Some m ->
  In m rows /\ forall j, In j rows -> page m <= page j.
Proof.
  revert m. induction rows as [|j rest IH]; intros m; cbn; [discriminate|].
  destruct (order_by_page_limit_1 rest) as [m'|] eqn:E.
  - destruct (IH m' eq_refl) as [Hin Hle].
    destruct (page j <=? page m') eqn:C; intros [= <-].
    + apply Z.leb_le in C. split; [now left|].
      intros j' [<-|H]; [lia|]. specialize (Hle j' H). lia.
    + apply Z.leb_gt in C. split; [now right|].
      intros j' [<-|H]; [lia|]. now apply Hle.
  - intros [= <-]. apply order_by_page_limit_1_none in E. subst rest.
    split; [now left|]. intros j' [<-|[]]. lia.
Qed.

Lemma Next_spec (x : Tasks.t) :
  Tasks.Next x =
  match order_by_page_limit_1 (Tasks.active x) with
  | Some j => Run j
  | None => Fatal sql.ErrNoRows
  end.
Proof.
  unfold Tasks.Next, sql.QueryRow, sql.call, Tasks.active.
  cbn [List.length Nat.eqb sql.NumInput Tasks.next sql.denote].
  destruct (order_by_page_limit_1 (jobs (sql.tables (Tasks.db x)))) as [[c p]|];
    reflexivity.
Qed.

Lemma filter_other_shorter (name : string) (rows : list Job) :
  has_job name rows = true ->
  (List.length (filter (fun j => negb (String.eqb (collection j) name)) rows)
   < List.length rows)%nat.
Proof.
  induction rows as [|j rest IH]; cbn; [discriminate|].
  destruct (String.eqb (collection j) name); cbn.
  - intros _.
    pose proof (filter_length_le
                  (fun j => negb (String.eqb (collection j) name)) rest).
    lia.
  - intros H. specialize (IH H). lia.
Qed.

Lemma has_job_filter_other (name : string) (rows : list Job) :
  has_job name (filter (fun j => negb (String.eqb (collection j) name)) rows) = false.
Proof.
  induction rows as [|j rest IH]; cbn; [reflexivity|].
  destruct (String.eqb (collection j) name) eqn:E; cbn; [exact IH|].
  now rewrite E.
Qed.

Lemma has_job_In (name : string) (rows : list Job) :
  has_job name rows = true <-> In name (map collection rows).
Proof.
  unfold has_job. rewrite existsb_exists, in_map_iff. split.
  - intros (j & Hin & E). apply String.eqb_eq in E. eauto.
  - intros (j & E & Hin). exists j. split; [exact Hin|]. now apply String.eqb_eq.
Qed.

Lemma has_done_In (name : string) (rows : list DoneRecord) :
  has_done name rows = true <-> In name (map done_name rows).
Proof.
  unfold has_done. rewrite existsb_exists, in_map_iff. split.
  - intros (d & Hin & E). apply String.eqb_eq in E. eauto.
  - intros (d & E & Hin). exists d. split; [exact Hin|]. now apply String.eqb_eq.
Qed.

Lemma NoDup_snoc {A : Type} (l : list A) (a : A) :
  NoDup l -> ~ In a l -> NoDup (l ++ [a]).
Proof.
  intros Hnd Hnotin. apply NoDup_app; [exact Hnd|repeat constructor; intros []|].
  intros b Hb [<-|[]]. contradiction.
Qed.

Lemma NoDup_map_filter {A B : Type} (f : A -> B) (keep : A -> bool) (l : list A) :
  NoDup (map f l) -> NoDup (map f (filter keep l)).
Proof.
  induction l as [|a l IH]; cbn; [auto|].
  intros Hnd. inversion Hnd as [|? ? Hnotin Hnd']; subst.
  destruct (keep a); cbn; [|auto]. constructor; [|auto].
  intros Hin. apply Hnotin. apply in_map_iff in Hin. destruct Hin as (b & E & Hb).
  apply filter_In in Hb. apply in_map_iff. exists b. tauto.
Qed.

(** The operations of the ledger never end the process, and they keep the
    primary keys of both tables. *)
Lemma apply_op_keyed (o : op) (x : Tasks.t) :
  keyed x -> exists x', apply_op o x = Run x' /\ keyed x'.
Proof.
  unfold keyed. intros [Hj Hd]. destruct o as [name|name|job reason]; cbn [apply_op].
  - destruct (Add_spec name x) as (x' & -> & Hjobs & Hdone & _).
    exists x'. split; [reflexivity|]. rewrite Hjobs, Hdone. split; [|exact Hd].
    destruct (has_job name (Tasks.active x)) eqn:E; [exact Hj|].
    rewrite map_app. apply NoDup_snoc; [exact Hj|].
    rewrite <- has_job_In. cbn [collection]. congruence.
  - destruct (Increment_spec name x) as (x' & -> & Hjobs & Hdone & _).
    exists x'. split; [reflexivity|]. rewrite Hjobs, Hdone. split; [|exact Hd].
    rewrite map_map. erewrite map_ext; [exact Hj|].
    intros j. now destruct (String.eqb (collection j) name).
  - destruct (Remove_spec job reason x) as (x' & -> & Hjobs & Hdone & _).
    exists x'. split; [reflexivity|]. rewrite Hjobs, Hdone.
    split; [now apply NoDup_map_filter|].
    destruct (has_done (collection job) (Tasks.resolved x)) eqn:E; [exact Hd|].
    rewrite map_app. apply NoDup_snoc; [exact Hd|].
    rewrite <- has_done_In. cbn [done_name]. congruence.
Qed.

Lemma run_ops_keyed (ops : list op) :
  forall x, keyed x -> exists x', run_ops ops x = Run x' /\ keyed x'.
Proof.
  induction ops as [|o ops IH]; intros x Hk; cbn [run_ops]; [eauto|].
  destruct (apply_op_keyed o x Hk) as (x1 & -> & Hk1). cbn [bind]. now apply IH.
Qed.

Lemma ledger0_keyed : keyed ledger0.
Proof. split; constructor. Qed.

(** ** The ledger's claims *)

(** C1 (the code departs from it): [Add(n)] for a name [n] that has a
    DoneRecord should change nothing.  After [n] was added and retired,
    the done log holds [n]; [Add("n")] then inserts the job [n] at page 1
    again and raises the live count from 0 to 1. *)
Theorem Add_after_done_inserts_job :
  exists x x',
    run_ops retired_n ledger0 = Run x
    /\ has_done "n" (Tasks.resolved x) = true
    /\ Tasks.active x = [] /\ Tasks.Len x = 0
    /\ Tasks.Add "n" x = Run x'
    /\ Tasks.active x' = [job_n] /\ Tasks.Len x' = 1
    /\ Tasks.resolved x' = Tasks.resolved x.
Proof.
  do 2 eexists. split; [reflexivity|]. cbn. repeat split; reflexivity.
Qed.

(** C2 (the code departs from it): no name should be an active Job and
    have a DoneRecord at once.  From the empty ledger, adding [n], retiring
    it and adding it again gives a ledger where [n] is both. *)
Theorem job_and_record_at_once :
  exists x,
    run_ops readded_n ledger0 = Run x
    /\ has_job "n" (Tasks.active x) = true
    /\ has_done "n" (Tasks.resolved x) = true.
Proof.
  eexists. split; [reflexivity|]. split; reflexivity.
Qed.

(** C5: on a ledger with a job, [Next()] returns an active Job whose page
    is the least of all active Jobs; on a ledger with none it ends the
    process ([log.Fatal] of "no rows"). *)
Theorem Next_least_page (x : Tasks.t) :
  (Tasks.active x <> [] ->
   exists j, Tasks.Next x = Run j
             /\ In j (Tasks.active x)
             /\ forall j', In j' (Tasks.active x) -> page j <= page j')
  /\ (Tasks.active x = [] -> Tasks.Next x = Fatal sql.ErrNoRows).
Proof.
  rewrite Next_spec. split.
  - intros Hne.
    destruct (order_by_page_limit_1 (Tasks.active x)) as [m|] eqn:E.
    + exists m. split; [reflexivity|]. now apply order_by_page_limit_1_least.
    + apply order_by_page_limit_1_none in E. contradiction.
  - intros ->. reflexivity.
Qed.

(** On the jobs [{A:3, B:1, C:1}] there is such a job. *)
Lemma Next_least_page_witness :
  exists j, Tasks.Next ledger_ABC = Run j
            /\ In j (Tasks.active ledger_ABC)
            /\ forall j', In j' (Tasks.active ledger_ABC) -> page j <= page j'.
Proof.
  apply (proj1 (Next_least_page ledger_ABC)). discriminate.
Defined.

(** With the jobs [{A:3, B:1, C:1}], [Next()] returns [B]. *)
Example Next_ABC : Tasks.Next ledger_ABC = Run {| collection := "B"; page := 1 |}.
Proof. reflexivity. Qed.

(** C7 (the code departs from it): a second [Add] of an active name
    should leave [Len()] alone.  It inserts no job and keeps the page, but
    it raises the live count: after [Add("n")] twice there is one job and
    [Len()] is 2. *)
Theorem duplicate_Add_raises_Len :
  exists x,
    run_ops [OpAdd "n"; OpAdd "n"] ledger0 = Run x
    /\ Tasks.active x = [job_n]
    /\ Tasks.Len x = 2
    /\ Tasks.Len x <> Z.of_nat (List.length (Tasks.active x)).
Proof.
  eexists. split; [reflexivity|]. cbn. repeat split; try reflexivity. discriminate.
Qed.

(** C8, as the code has it: for an active Job [j] and a reason [r],
    [Remove(j, r)] deletes the rows of [j]'s name, lowers the live count by
    one, and appends the DoneRecord of [j]'s name, [j]'s page and [r] when
    the name has no DoneRecord; when it has one the append fails, which is
    only logged, and the done log stays as it was. *)
Theorem Remove_active (x : Tasks.t) (j : Job) (r : string) :
  has_job (collection j) (Tasks.active x) = true ->
  exists x',
    Tasks.Remove j r x = Run x'
    /\ has_job (collection j) (Tasks.active x') = false
    /\ Tasks.active x' =
         filter (fun k => negb (String.eqb (collection k) (collection j)))
                (Tasks.active x)
    /\ (List.length (Tasks.active x') < List.length (Tasks.active x))%nat
    /\ Tasks.Len x' = GoInt.decr (Tasks.Len x)
    /\ (GoInt.min_int < Tasks.Len x <= GoInt.max_int -> Tasks.Len x' = Tasks.Len x - 1)
    /\ Tasks.resolved x' =
         (if has_done (collection j) (Tasks.resolved x) then Tasks.resolved x
          else Tasks.resolved x
                 ++ [{| done_name := collection j; done_page := page j;
                        done_reason := r |}]).
Proof.
  intros Hact. destruct (Remove_spec j r x) as (x' & Hrun & Hjobs & Hdone & Hlen).
  exists x'. split; [exact Hrun|]. rewrite Hjobs.
  split; [apply has_job_filter_other|]. split; [reflexivity|].
  split; [now apply filter_other_shorter|]. split; [assumption|].
  split; [|assumption]. intros Hr. rewrite Hlen. now apply decr_in_range.
Qed.

(** The one job [n] of a ledger is removed with the empty reason. *)
Lemma Remove_active_witness :
  exists x',
    Tasks.Remove job_n "" (ledger_of [job_n]) = Run x'
    /\ has_job "n" (Tasks.active x') = false
    /\ Tasks.active x' =
         filter (fun k => negb (String.eqb (collection k) "n")) [job_n]
    /\ (List.length (Tasks.active x') < 1)%nat
    /\ Tasks.Len x' = GoInt.decr 1
    /\ (GoInt.min_int < 1 <= GoInt.max_int -> Tasks.Len x' = 1 - 1)
    /\ Tasks.resolved x' =
         [{| done_name := "n"; done_page := 1; done_reason := "" |}].
Proof.
  apply (Remove_active (ledger_of [job_n]) job_n ""). reflexivity.
Defined.

(** C8 as stated fails: in the ledger where [n] was retired and added
    again, [n] is active, and [Remove] of it with the reason ["gone"]
    deletes the job without appending a DoneRecord of that reason. *)
Lemma Remove_active_appends_nothing :
  exists x x',
    run_ops readded_n ledger0 = Run x
    /\ has_job "n" (Tasks.active x) = true
    /\ Tasks.Remove job_n "gone" x = Run x'
    /\ Tasks.active x' = []
    /\ Tasks.resolved x' = Tasks.resolved x
    /\ ~ In {| done_name := "n"; done_page := 1; done_reason := "gone" |}
            (Tasks.resolved x').
Proof.
  do 2 eexists. split; [reflexivity|]. cbn.
  repeat split; try reflexivity. intros [H|[]]. discriminate H.
Qed.

(** ** The hash store *)

Lemma string_pairs_ind (P : string -> Prop) :
  P EmptyString ->
  (forall c, P (String c EmptyString)) ->
  (forall c c' s, P s -> P (String c (String c' s))) ->
  forall s, P s.
Proof.
  intros H0 H1 H2 s.
  assert (H : P s /\ forall c, P (String c s)).
  { induction s as [|c s [IHa IHb]]; split; auto. }
  exact (proj1 H).
Qed.

Lemma DecodeString_length (s : string) (bs : list Z) :
  hex.DecodeString s = (bs, None) ->
  String.length s = (2 * List.length bs)%nat.
Proof.
  revert bs. induction s as [|c|c c' s IH] using string_pairs_ind; intros bs.
  - intros [= <-]. reflexivity.
  - cbn. destruct (hex.reverseHexTable c >? 15); discriminate.
  - cbn [hex.DecodeString].
    destruct (hex.reverseHexTable c >? 15); [discriminate|].
    destruct (hex.reverseHexTable c' >? 15); [discriminate|].
    destruct (hex.DecodeString s) as [bs' e] eqn:E.
    intros [= <- ->]. cbn. rewrite (IH bs' eq_refl). lia.
Qed.

Lemma HasPrefix_append (item name : string) :
  HasPrefix name item = true ->
  name = String.append item (slice_from (String.length item) name).
Proof.
  unfold HasPrefix. revert name.
  induction item as [|a item IH]; intros name; [intros _; reflexivity|].
  destruct name as [|b name]; cbn; [intros H; discriminate H|].
  destruct (ascii_dec a b) as [->|]; [|intros H; discriminate H].
  intros H. f_equal. now apply IH.
Qed.

Lemma HasPrefix_of_append (item rest : string) :
  HasPrefix (String.append item rest) item = true
  /\ slice_from (String.length item) (String.append item rest) = rest.
Proof.
  unfold HasPrefix. induction item as [|a item [IHa IHb]]; cbn.
  - split; [now destruct rest|reflexivity].
  - destruct (ascii_dec a a) as [_|n]; [|now elim n]. now split.
Qed.

Lemma generated_suffixes (suffix : string) :
  Storage.generated suffix = true <-> In suffix suffixes.
Proof.
  unfold Storage.generated, suffixes. cbn [In].
  rewrite !orb_true_iff, !String.eqb_eq.
  split; intros H; repeat (destruct H as [H|H]); subst; tauto.
Qed.

Lemma generated_name (item name : string) :
  HasPrefix name item && Storage.generated (slice_from (String.length item) name) = true
  <-> exists suffix, In suffix suffixes /\ name = String.append item suffix.
Proof.
  rewrite andb_true_iff, generated_suffixes. split.
  - intros [Hp Hg]. eexists. split; [exact Hg|]. now apply HasPrefix_append.
  - intros (suffix & Hin & ->).
    destruct (HasPrefix_of_append item suffix) as [Hp ->]. now split.
Qed.

Lemma insHash_spec (bs : list Z) (id : Z) (d : sql.DB HashTables) :
  sql.Exec Storage.insHash [sql.VBlob bs; sql.VInt id] d =
  if has_hash bs (hashes (sql.tables d))
  then Err "UNIQUE constraint failed: hashes.hash"
  else Ok ({| sql.dataSourceName := sql.dataSourceName d;
              sql.tables := {| archive_items := archive_items (sql.tables d);
                               sqlite_sequence := sqlite_sequence (sql.tables d);
                               hashes := hashes (sql.tables d) ++ [(bs, id)] |} |},
           {| sql.LastInsertId := Z.of_nat (List.length (hashes (sql.tables d))) + 1;
              sql.RowsAffected := 1 |}).
Proof.
  unfold sql.Exec, sql.call. cbn.
  now destruct (has_hash bs (hashes (sql.tables d))).
Qed.

(** What one turn of the file loop does: it appends the row of an accepted
    file and sets the flag, or leaves everything as it was. *)
Lemma file_step_cases (item : string) (id : Z) (d : sql.DB HashTables) (ins : bool)
  (f : File) :
  (exists bs,
      accepted item id d f bs
      /\ hashes (sql.tables (fst (Storage.file_step item id (d, ins) f)))
         = hashes (sql.tables d) ++ [(bs, id)]
      /\ archive_items (sql.tables (fst (Storage.file_step item id (d, ins) f)))
         = archive_items (sql.tables d)
      /\ snd (Storage.file_step item id (d, ins) f) = true)
  \/ ((forall bs, ~ accepted item id d f bs)
      /\ Storage.file_step item id (d, ins) f = (d, ins)).
Proof.
  unfold Storage.file_step, accepted.
  destruct (String.eqb (Name f) "__ia_thumb.jpg") eqn:Ethumb.
  { right. split; [|reflexivity]. apply String.eqb_eq in Ethumb.
    intros bs (Hn & _). contradiction. }
  destruct (HasPrefix (Name f) item
            && Storage.generated (slice_from (String.length item) (Name f))) eqn:Egen.
  { right. split; [|reflexivity]. apply generated_name in Egen.
    destruct Egen as (suffix & Hin & Heq).
    intros bs (_ & Hs & _). exact (Hs suffix Hin Heq). }
  destruct (Nat.eqb (String.length (Hash f)) 40) eqn:Elen; cbn [negb].
  2:{ right. split; [|reflexivity]. apply Nat.eqb_neq in Elen.
      intros bs (_ & _ & Hdec & Hbs & _).
      apply DecodeString_length in Hdec. lia. }
  apply Nat.eqb_eq in Elen.
  destruct (hex.DecodeString (Hash f)) as [hexed [e|]] eqn:Edec.
  { right. split; [|reflexivity]. intros bs (_ & _ & Hdec & _). discriminate Hdec. }
  cbn [fst]. rewrite insHash_spec.
  destruct (has_hash hexed (hashes (sql.tables d))) eqn:Ehas.
  - right. split; [|reflexivity].
    intros bs (_ & _ & [= <-] & _ & r & Hr).
    rewrite insHash_spec, Ehas in Hr. discriminate Hr.
  - left. exists hexed. cbn. repeat split; try reflexivity.
    + intros E. rewrite E in Ethumb. discriminate Ethumb.
    + intros suffix Hin Heq.
      assert (H : HasPrefix (Name f) item
                  && Storage.generated (slice_from (String.length item) (Name f)) = true)
        by (apply generated_name; exists suffix; split; [exact Hin|exact Heq]).
      congruence.
    + pose proof (DecodeString_length _ _ Edec). lia.
    + rewrite insHash_spec, Ehas. eauto.
Qed.

Lemma insName_spec (item : string) (d : sql.DB HashTables) :
  sql.Exec Storage.insName [sql.VText item] d =
  if has_item item (archive_items (sql.tables d))
  then Err "UNIQUE constraint failed: archive_items.name"
  else Ok ({| sql.dataSourceName := sql.dataSourceName d;
              sql.tables :=
                {| archive_items := archive_items (sql.tables d)
                                      ++ [(sqlite_sequence (sql.tables d) + 1, item)];
                   sqlite_sequence := sqlite_sequence (sql.tables d) + 1;
                   hashes := hashes (sql.tables d) |} |},
           {| sql.LastInsertId := sqlite_sequence (sql.tables d) + 1;
              sql.RowsAffected := 1 |}).
Proof.
  unfold sql.Exec, sql.call. cbn.
  now destruct (has_item item (archive_items (sql.tables d))).
Qed.

(** The file loop only appends hash rows, all of the item row [id]; the
    flag it leaves tells whether it appended any. *)
Lemma file_loop_spec (item : string) (id : Z) (fs : list File) :
  forall (d : sql.DB HashTables) (ins : bool),
  exists extra,
    hashes (sql.tables (fst (fold_left (Storage.file_step item id) fs (d, ins))))
    = hashes (sql.tables d) ++ extra
    /\ archive_items (sql.tables (fst (fold_left (Storage.file_step item id) fs (d, ins))))
       = archive_items (sql.tables d)
    /\ snd (fold_left (Storage.file_step item id) fs (d, ins))
       = ins || negb (Nat.eqb (List.length extra) 0)
    /\ Forall (fun r => snd r = id) extra.
Proof.
  induction fs as [|f fs IH]; intros d ins; cbn [fold_left].
  - exists []. cbn. rewrite app_nil_r, orb_false_r. auto.
  - destruct (file_step_cases item id d ins f)
      as [(bs & _ & Hrows & Hitems & Hflag)|[_ Heq]].
    + destruct (Storage.file_step item id (d, ins) f) as [d1 ins1].
      cbn [fst snd] in *. subst ins1.
      destruct (IH d1 true) as (extra & Hr & Hi & Hf & Hall).
      exists ((bs, id) :: extra). rewrite Hr, Hi, Hf, Hrows, Hitems, <- app_assoc.
      cbn. rewrite orb_true_r. repeat split; auto.
    + rewrite Heq. apply IH.
Qed.

Lemma NewEntry_no_files (im : ItemMetadata) (item : string) (s : Storage.t) :
  Files im = [] -> Storage.NewEntry im item s = (s, Some "no files").
Proof. unfold Storage.NewEntry. now intros ->. Qed.

Lemma NewEntry_recorded (im : ItemMetadata) (item : string) (s : Storage.t) :
  Files im <> [] ->
  has_item item (Storage.items s) = true ->
  Storage.NewEntry im item s
  = (s, Some "UNIQUE constraint failed: archive_items.name").
Proof.
  intros Hne Hhas. unfold Storage.NewEntry, Storage.items in *.
  destruct (Files im) as [|f fs]; [contradiction|].
  cbn [List.length Nat.eqb Storage.Begin]. rewrite insName_spec, Hhas.
  now destruct s.
Qed.

Lemma NewEntry_loop (im : ItemMetadata) (item : string) (s : Storage.t)
  (d : sql.DB HashTables) (res : sql.Result) :
  Files im <> [] ->
  sql.Exec Storage.insName [sql.VText item] (Storage.db s) = Ok (d, res) ->
  Storage.NewEntry im item s
  = ({| Storage.db :=
          fst (fold_left (Storage.file_step item (sql.LastInsertId res)) (Files im)
                         (d, false)) |},
     if snd (fold_left (Storage.file_step item (sql.LastInsertId res)) (Files im)
                       (d, false))
     then None else Some "no valid files").
Proof.
  intros Hne Hexec. unfold Storage.NewEntry.
  destruct (Files im) as [|f fs] eqn:E; [contradiction|].
  cbn [List.length Nat.eqb Storage.Begin]. rewrite Hexec.
  destruct (fold_left (Storage.file_step item (sql.LastInsertId res)) (f :: fs) (d, false))
    as [d' inserted].
  now destruct inserted.
Qed.

Lemma app_eq_self_nil {A : Type} (l extra : list A) :
  l ++ extra = l -> extra = [].
Proof.
  intros H. apply (f_equal (@List.length A)) in H. rewrite length_app in H.
  destruct extra; [reflexivity|]. cbn in H. lia.
Qed.

(** ** The hash store's claims *)

(** C3, as the code has it: [NewEntry] fails exactly when the file list is
    empty (error "no files", the store untouched), or the item's name is
    recorded already (the store's constraint error, the store untouched),
    or no hash row was inserted (error "no valid files"); on every failure
    the hash table is as it was before the call.  For a new item whose only
    file is the thumbnail it fails with "no valid files". *)
Theorem NewEntry_fails_iff (im : ItemMetadata) (item : string) (s : Storage.t) :
  (snd (Storage.NewEntry im item s) <> None <->
   Files im = []
   \/ has_item item (Storage.items s) = true
   \/ Storage.rows (fst (Storage.NewEntry im item s)) = Storage.rows s)
  /\ (Files im = [] -> Storage.NewEntry im item s = (s, Some "no files"))
  /\ (Files im <> [] -> has_item item (Storage.items s) = true ->
      Storage.NewEntry im item s
      = (s, Some "UNIQUE constraint failed: archive_items.name"))
  /\ (Files im <> [] -> has_item item (Storage.items s) = false ->
      Storage.rows (fst (Storage.NewEntry im item s)) = Storage.rows s ->
      snd (Storage.NewEntry im item s) = Some "no valid files")
  /\ (forall h, Files im = [{| Hash := h; Name := "__ia_thumb.jpg" |}] ->
      has_item item (Storage.items s) = false ->
      snd (Storage.NewEntry im item s) = Some "no valid files"
      /\ Storage.rows (fst (Storage.NewEntry im item s)) = Storage.rows s).
Proof.
  assert (Hloop : Files im <> [] -> has_item item (Storage.items s) = false ->
            exists extra,
              Storage.rows (fst (Storage.NewEntry im item s)) = Storage.rows s ++ extra
              /\ snd (Storage.NewEntry im item s)
                 = if negb (Nat.eqb (List.length extra) 0) then None
                   else Some "no valid files").
  { intros Hne Hnew. pose proof (insName_spec item (Storage.db s)) as Hexec.
    unfold Storage.items in Hnew. rewrite Hnew in Hexec.
    rewrite (NewEntry_loop im item s _ _ Hne Hexec).
    unfold Storage.rows. cbn [sql.LastInsertId fst snd Storage.db].
    match goal with
    | |- context [fold_left (Storage.file_step item ?id) ?fs (?d, false)] =>
        destruct (file_loop_spec item id fs d false) as (extra & Hr & _ & Hf & _)
    end.
    exists extra. rewrite Hr, Hf. cbn. split; reflexivity. }
  split; [|split; [|split; [|split]]].
  - destruct (Files im) as [|f fs] eqn:Efiles.
    { rewrite NewEntry_no_files by assumption. cbn. split; [tauto|discriminate]. }
    destruct (has_item item (Storage.items s)) eqn:Ehas.
    { rewrite NewEntry_recorded by (rewrite ?Efiles; congruence).
      cbn. split; [tauto|discriminate]. }
    destruct Hloop as (extra & Hr & Hf); [discriminate|reflexivity|].
    rewrite Hr, Hf. destruct extra as [|row extra]; cbn.
    + rewrite app_nil_r. split; [tauto|discriminate].
    + split; [congruence|]. intros [H|[H|H]]; try discriminate.
      apply app_eq_self_nil in H. discriminate.
  - apply NewEntry_no_files.
  - apply NewEntry_recorded.
  - intros Hne Hnew Hrows. destruct (Hloop Hne Hnew) as (extra & Hr & Hf).
    rewrite Hr in Hrows. apply app_eq_self_nil in Hrows. subst extra. exact Hf.
  - intros h Hfiles Hnew.
    pose proof (insName_spec item (Storage.db s)) as Hexec.
    unfold Storage.items in Hnew. rewrite Hnew in Hexec.
    rewrite (NewEntry_loop im item s _ _ ltac:(rewrite Hfiles; discriminate) Hexec).
    rewrite Hfiles. split; reflexivity.
Qed.

(** The item [x] of the empty store with the thumbnail as its only file. *)
Lemma NewEntry_fails_iff_witness :
  snd (Storage.NewEntry only_thumb "x" store0) = Some "no valid files"
  /\ Storage.rows (fst (Storage.NewEntry only_thumb "x" store0)) = Storage.rows store0.
Proof.
  apply (proj2 (proj2 (proj2 (proj2 (NewEntry_fails_iff only_thumb "x" store0))))
           sha1_b);
    reflexivity.
Defined.

(** C3 as stated fails, twice.  The item [x] is recorded with its three
    files; a second [NewEntry] for [x] with one file that passes the whole
    filter fails with the store's constraint error: the file list is not
    empty and a hash row survives the filter.  And [NewEntry] for the new
    item [y] whose only file is the thumbnail fails with "no valid files"
    and leaves the item row of [y] in the store. *)
Lemma NewEntry_fails_otherwise :
  (exists s e bs,
      Storage.NewEntry three_files "x" store0 = (s, None)
      /\ Storage.NewEntry one_more "x" s = (s, Some e)
      /\ Files one_more <> []
      /\ accepted "x" 2 (Storage.db s) more_bin bs
      /\ e <> "no files" /\ e <> "no valid files")
  /\ (exists s',
         Storage.NewEntry only_thumb "y" store0 = (s', Some "no valid files")
         /\ Storage.items s' = [(1, "y")]).
Proof.
  split.
  - do 3 eexists. split; [reflexivity|]. split; [reflexivity|].
    split; [discriminate|]. split; [|split; discriminate].
    unfold accepted. split; [discriminate|]. split.
    + intros suffix Hin. cbn in Hin.
      repeat (destruct Hin as [<-|Hin]; [discriminate|]). destruct Hin.
    + split; [reflexivity|]. split; [reflexivity|]. eexists. reflexivity.
  - eexists. split; reflexivity.
Qed.

(** The rollback of [NewEntry] removes nothing: the item row was inserted
    through [s.insName], a statement of the database and not of the
    transaction, so a call that ends in "no valid files" leaves the row of
    the item behind. *)
Lemma NewEntry_rollback_keeps_item_row (im : ItemMetadata) (item : string)
  (s : Storage.t) :
  has_item item (Storage.items s) = false ->
  snd (Storage.NewEntry im item s) = Some "no valid files" ->
  has_item item (Storage.items (fst (Storage.NewEntry im item s))) = true.
Proof.
  intros Hnew. destruct (Files im) as [|f fs] eqn:Efiles.
  { rewrite NewEntry_no_files by assumption. discriminate. }
  pose proof (insName_spec item (Storage.db s)) as Hexec.
  unfold Storage.items in Hnew. rewrite Hnew in Hexec.
  rewrite (NewEntry_loop im item s _ _ ltac:(rewrite Efiles; discriminate) Hexec).
  intros _. unfold Storage.items. cbn [sql.LastInsertId fst snd Storage.db].
  match goal with
  | |- context [fold_left (Storage.file_step item ?id) ?l (?d, false)] =>
      destruct (file_loop_spec item id l d false) as (extra & _ & Hi & _)
  end.
  rewrite Hi. cbn [sql.tables archive_items]. unfold has_item.
  rewrite existsb_app. cbn. rewrite String.eqb_refl. now rewrite orb_true_r.
Qed.

(** C9: in [NewEntry] for a new item, when the loop reaches the file [f]
    after the files [pre], it inserts a hash row for [f] if and only if
    [f] is not the thumbnail, is not one of the five generated files of
    the item, has a hash string that decodes to 20 bytes, and the insert
    succeeds; a file that is not accepted leaves store and flag as they
    were; and the files [post] after [f] are processed all the same: the
    store [NewEntry] leaves is the one the loop over [post] ends with. *)
Theorem NewEntry_file_filter (im : ItemMetadata) (item : string) (s : Storage.t)
  (d : sql.DB HashTables) (res : sql.Result) (pre post : list File) (f : File) :
  sql.Exec Storage.insName [sql.VText item] (Storage.db s) = Ok (d, res) ->
  Files im = pre ++ f :: post ->
  let id := sql.LastInsertId res in
  let before := fold_left (Storage.file_step item id) pre (d, false) in
  let after := Storage.file_step item id before f in
  ((exists bs, accepted item id (fst before) f bs) <->
   (exists bs, hashes (sql.tables (fst after))
               = hashes (sql.tables (fst before)) ++ [(bs, id)]))
  /\ (forall bs, accepted item id (fst before) f bs ->
      hashes (sql.tables (fst after)) = hashes (sql.tables (fst before)) ++ [(bs, id)])
  /\ ((forall bs, ~ accepted item id (fst before) f bs) -> after = before)
  /\ Storage.db (fst (Storage.NewEntry im item s))
     = fst (fold_left (Storage.file_step item id) post after).
Proof.
  intros Hexec Hfiles id before after.
  assert (Hcases := file_step_cases item id (fst before) (snd before) f).
  rewrite <- surjective_pairing in Hcases. fold after in Hcases.
  split; [|split; [|split]].
  - split.
    + intros [bs Hacc]. destruct Hcases as [(bs' & _ & Hrows & _)|[Hno _]].
      * now exists bs'.
      * now elim (Hno bs).
    + intros [bs Hrows]. destruct Hcases as [(bs' & Hacc & _)|[_ Heq]].
      * now exists bs'.
      * rewrite Heq in Hrows. symmetry in Hrows.
        apply app_eq_self_nil in Hrows. discriminate.
  - intros bs Hacc. destruct Hcases as [(bs' & Hacc' & Hrows & _)|[Hno _]].
    + destruct Hacc as (_ & _ & Hdec & _), Hacc' as (_ & _ & Hdec' & _).
      rewrite Hdec in Hdec'. injection Hdec' as ->. exact Hrows.
    + now elim (Hno bs).
  - intros Hno. destruct Hcases as [(bs & Hacc & _)|[_ Heq]].
    + now elim (Hno bs).
    + exact Heq.
  - rewrite (NewEntry_loop im item s d res) by (rewrite ?Hfiles; auto with datatypes).
    cbn [fst Storage.db]. rewrite Hfiles, fold_left_app. reflexivity.
Qed.

(** The file [data.bin] of [x], after the thumbnail and [x_meta.xml]. *)
Lemma NewEntry_file_filter_witness :
  exists bs,
    hashes (sql.tables
              (fst (Storage.file_step "x" 1
                      (fold_left (Storage.file_step "x" 1) [thumb; x_meta]
                                 (store0_with_x, false))
                      data_bin)))
    = hashes (sql.tables
                (fst (fold_left (Storage.file_step "x" 1) [thumb; x_meta]
                                (store0_with_x, false))))
      ++ [(bs, 1)].
Proof.
  refine (proj1 (proj1 (NewEntry_file_filter three_files "x" store0 store0_with_x
                          {| sql.LastInsertId := 1; sql.RowsAffected := 1 |}
                          [thumb; x_meta] [] data_bin eq_refl eq_refl)) _).
  eexists. unfold accepted. split; [discriminate|]. split.
  - intros suffix Hin. cbn in Hin.
    repeat (destruct Hin as [<-|Hin]; [discriminate|]). destruct Hin.
  - split; [reflexivity|]. split; [reflexivity|]. eexists. reflexivity.
Defined.

(** Of the files [thumb], [x_meta.xml] and [data.bin] of the item [x],
    the one hash row inserted is that of [data.bin]. *)
Example NewEntry_three_files :
  exists s,
    Storage.NewEntry three_files "x" store0 = (s, None)
    /\ Storage.rows s = [(fst (hex.DecodeString (Hash data_bin)), 1)].
Proof. eexists. split; reflexivity. Qed.

(** C10 (the code departs from it): [NewStorage(dbPath)] should open the
    store at [dbPath].  Whatever [dbPath] is, it opens the file
    ["hashes.db"]. *)
Theorem NewStorage_opens_hashes_db (fs : string -> HashTables) (dbPath : string) :
  exists s,
    NewStorage fs dbPath = Ok s
    /\ sql.dataSourceName (Storage.db s) = "hashes.db"
    /\ sql.tables (Storage.db s) = fs "hashes.db".
Proof. eexists. split; [reflexivity|]. split; reflexivity. Qed.

(** [NewTasks(dbPath)], next to it, opens the file it is given. *)
Lemma NewTasks_opens_dbPath (fs : string -> LedgerTables) (dbPath : string) :
  exists x,
    NewTasks fs dbPath = Ok x
    /\ sql.dataSourceName (Tasks.db x) = dbPath
    /\ sql.tables (Tasks.db x) = fs dbPath.
Proof. eexists. split; [reflexivity|]. split; reflexivity. Qed.

(** ** The crawl loop *)

Lemma stored_page_app (name : string) (rows more : list Job) (p : Z) :
  stored_page name rows = Some p -> stored_page name (rows ++ more) = Some p.
Proof.
  induction rows as [|j rows IH]; cbn; [discriminate|].
  destruct (String.eqb (collection j) name); auto.
Qed.

Lemma stored_page_In (j : Job) (rows : list Job) :
  In j rows -> exists p, stored_page (collection j) rows = Some p.
Proof.
  induction rows as [|k rows IH]; cbn; [contradiction|].
  destruct (String.eqb (collection k) (collection j)) eqn:E; [eauto|].
  intros [->|H]; [|auto]. rewrite String.eqb_refl in E. discriminate E.
Qed.

(** Under the primary key of [jobs], the stored page of a job's name is the
    page of the job. *)
Lemma stored_page_NoDup (j : Job) (rows : list Job) :
  NoDup (map collection rows) -> In j rows ->
  stored_page (collection j) rows = Some (page j).
Proof.
  induction rows as [|k rows IH]; cbn; [contradiction|].
  intros Hnd [->|Hin].
  - now rewrite String.eqb_refl.
  - inversion Hnd as [|? ? Hnotin Hnd']; subst.
    destruct (String.eqb (collection k) (collection j)) eqn:E; [|auto].
    apply String.eqb_eq in E. elim Hnotin. rewrite E. now apply in_map.
Qed.

Lemma stored_page_increment (name : string) (rows : list Job) :
  stored_page name
    (map (fun j => if String.eqb (collection j) name
                   then {| collection := collection j; page := page j + 1 |}
                   else j) rows)
  = option_map (fun p => p + 1) (stored_page name rows).
Proof.
  induction rows as [|j rows IH]; cbn; [reflexivity|].
  destruct (String.eqb (collection j) name) eqn:E; cbn; rewrite E; auto.
Qed.

(** The item loop never ends the process, leaves the done log alone and
    keeps the stored page of every job. *)
Lemma item_step_spec (a : Archive) (st : stores) (name : string) :
  exists st',
    item_step a st name = Run st'
    /\ Tasks.resolved (fst st') = Tasks.resolved (fst st)
    /\ forall n p, stored_page n (Tasks.active (fst st)) = Some p ->
                   stored_page n (Tasks.active (fst st')) = Some p.
Proof.
  unfold item_step. destruct (NewItemMetadata a name) as [im|e]; [|eauto].
  destruct (IsCollection im); [|eexists; split; [reflexivity|]; auto].
  destruct (Add_spec name (fst st)) as (x' & -> & Hjobs & Hdone & _).
  eexists. split; [reflexivity|]. cbn [fst]. split; [exact Hdone|].
  intros n p Hp. rewrite Hjobs.
  destruct (has_job name (Tasks.active (fst st))); [exact Hp|].
  now apply stored_page_app.
Qed.

Lemma items_spec (a : Archive) (names : list string) :
  forall st : stores,
  exists st',
    items a names st = Run st'
    /\ Tasks.resolved (fst st') = Tasks.resolved (fst st)
    /\ forall n p, stored_page n (Tasks.active (fst st)) = Some p ->
                   stored_page n (Tasks.active (fst st')) = Some p.
Proof.
  induction names as [|name names IH]; intros st; cbn [items].
  - eauto.
  - destruct (item_step_spec a st name) as (st1 & -> & Hd1 & Hp1). cbn [bind].
    destruct (IH st1) as (st2 & -> & Hd2 & Hp2).
    exists st2. split; [reflexivity|]. split; [congruence|auto].
Qed.

Lemma Next_In (x : Tasks.t) (job : Job) :
  Tasks.Next x = Run job -> In job (Tasks.active x).
Proof.
  rewrite Next_spec.
  destruct (order_by_page_limit_1 (Tasks.active x)) as [m|] eqn:E; [|discriminate].
  intros [= <-]. now apply order_by_page_limit_1_least.
Qed.

(** ** The crawl loop's claims *)

(** C4, as the code has it: when the fetch of the job's page fails and the
    fetch of the next page succeeds with at least one entry, the loop body
    runs to its end, the stored page of the job is 2 more than before
    (the page of the job itself, names being unique), and the done log is
    as it was. *)
Theorem retry_advances_page_by_two (a : Archive) (st : stores) (job : Job)
  (e : error) (co : CollectionSubset) :
  Tasks.Next (fst st) = Run job ->
  NewCollectionSubset a (collection job) batchSize (page job) = Err e ->
  NewCollectionSubset a (collection job) batchSize (GoInt.incr (page job)) = Ok co ->
  Buf co <> [] ->
  exists st' p,
    loop_body a st = Run st'
    /\ stored_page (collection job) (Tasks.active (fst st)) = Some p
    /\ stored_page (collection job) (Tasks.active (fst st')) = Some (p + 2)
    /\ Tasks.resolved (fst st') = Tasks.resolved (fst st)
    /\ (NoDup (map collection (Tasks.active (fst st))) -> p = page job).
Proof.
  intros Hnext Hfail Hretry Hne.
  pose proof (Next_In _ _ Hnext) as Hin.
  destruct (stored_page_In _ _ Hin) as [p Hp].
  unfold loop_body. rewrite Hnext. cbn [bind]. rewrite Hfail.
  cbn [collection page]. rewrite Hretry.
  destruct (Increment_spec (collection job) (fst st)) as (x1 & -> & Hj1 & Hd1 & _).
  cbn [bind]. unfold batch. cbn [collection fst snd].
  destruct (Buf co) as [|name names] eqn:Ebuf; [contradiction|].
  cbn [List.length Nat.eqb].
  destruct (items_spec a (name :: names) (x1, snd st)) as (st2 & -> & Hd2 & Hp2).
  cbn [bind fst] in *.
  destruct (Increment_spec (collection job) (fst st2)) as (x3 & -> & Hj3 & Hd3 & _).
  cbn [bind]. exists (x3, snd st2), p. cbn [fst].
  split; [reflexivity|]. split; [exact Hp|]. split; [|split].
  - rewrite Hj3, stored_page_increment.
    rewrite (Hp2 (collection job) (p + 1)).
    + cbn. f_equal. lia.
    + rewrite Hj1, stored_page_increment, Hp. reflexivity.
  - congruence.
  - intros Hnd. rewrite (stored_page_NoDup _ _ Hnd Hin) in Hp. congruence.
Qed.

(** Page 1 of [n] fails and page 2 lists two entries: [n] goes from page
    1 to page 3. *)
Lemma retry_advances_page_by_two_witness :
  exists st' p,
    loop_body archive_retry_full seeded = Run st'
    /\ stored_page "n" (Tasks.active (fst seeded)) = Some p
    /\ stored_page "n" (Tasks.active (fst st')) = Some (p + 2)
    /\ Tasks.resolved (fst st') = Tasks.resolved (fst seeded)
    /\ (NoDup (map collection (Tasks.active (fst seeded))) -> p = 1).
Proof.
  apply (retry_advances_page_by_two archive_retry_full seeded job_n "timeout"
           {| Buf := ["leafA"; "subB"] |});
    [reflexivity|reflexivity|reflexivity|discriminate].
Defined.

(** One turn on that archive: the job [n] is at page 3, the
    sub-collection is a job at page 1, the leaf item has its hash row. *)
Example retry_full_turn :
  exists st',
    loop_body archive_retry_full seeded = Run st'
    /\ Tasks.active (fst st')
       = [{| collection := "n"; page := 3 |}; {| collection := "subB"; page := 1 |}]
    /\ Tasks.resolved (fst st') = []
    /\ Storage.items (snd st') = [(1, "leafA")]
    /\ List.length (Storage.rows (snd st')) = 1%nat.
Proof. eexists. split; [reflexivity|]. repeat split; reflexivity. Qed.

(** C4 as stated fails: when the retried page comes back empty, the job
    is retired: its row is gone and a DoneRecord of page 2 is written. *)
Lemma retry_with_empty_page_retires :
  exists st',
    Tasks.Next (fst seeded) = Run job_n
    /\ NewCollectionSubset archive_retry_empty "n" batchSize 1 = Err "timeout"
    /\ NewCollectionSubset archive_retry_empty "n" batchSize (GoInt.incr 1)
       = Ok {| Buf := [] |}
    /\ loop_body archive_retry_empty seeded = Run st'
    /\ stored_page "n" (Tasks.active (fst st')) = None
    /\ Tasks.resolved (fst st')
       = [{| done_name := "n"; done_page := 2; done_reason := "" |}].
Proof. eexists. repeat split; reflexivity. Qed.

Lemma filter_increment (name : string) (rows : list Job) :
  filter (fun k => negb (String.eqb (collection k) name))
         (map (fun j => if String.eqb (collection j) name
                        then {| collection := collection j; page := page j + 1 |}
                        else j) rows)
  = filter (fun k => negb (String.eqb (collection k) name)) rows.
Proof.
  induction rows as [|j rows IH]; cbn; [reflexivity|].
  destruct (String.eqb (collection j) name) eqn:E; cbn; rewrite E; cbn; congruence.
Qed.

(** C6, as the code has it: when the fetch of the job's page returns no
    entry (the page [fetched] is the job's page, or the next one when the
    first fetch failed and the retry is the empty one), the loop body
    deletes the rows of the job's name and no other, lowers the live count
    by one, leaves the hash store alone, and appends the one DoneRecord of
    the name, the page [fetched] and the empty reason when the name has no
    DoneRecord; when it has one the done log stays as it was. *)
Theorem empty_page_retires_job (a : Archive) (st : stores) (job : Job) (fetched : Z) :
  Tasks.Next (fst st) = Run job ->
  (NewCollectionSubset a (collection job) batchSize (page job) = Ok {| Buf := [] |}
   /\ fetched = page job)
  \/ ((exists e, NewCollectionSubset a (collection job) batchSize (page job) = Err e)
      /\ NewCollectionSubset a (collection job) batchSize (GoInt.incr (page job))
         = Ok {| Buf := [] |}
      /\ fetched = GoInt.incr (page job)) ->
  exists tasks,
    loop_body a st = Run (tasks, snd st)
    /\ Tasks.active tasks
       = filter (fun k => negb (String.eqb (collection k) (collection job)))
                (Tasks.active (fst st))
    /\ has_job (collection job) (Tasks.active tasks) = false
    /\ Tasks.Len tasks = GoInt.decr (Tasks.Len (fst st))
    /\ Tasks.resolved tasks
       = (if has_done (collection job) (Tasks.resolved (fst st))
          then Tasks.resolved (fst st)
          else Tasks.resolved (fst st)
                 ++ [{| done_name := collection job; done_page := fetched;
                        done_reason := "" |}]).
Proof.
  intros Hnext Hfetch. unfold loop_body. rewrite Hnext. cbn [bind].
  destruct Hfetch as [[Hfetch ->]|([e Hfail] & Hretry & ->)].
  - rewrite Hfetch. unfold batch. cbn [Buf List.length Nat.eqb].
    destruct (Remove_spec job "" (fst st)) as (x' & -> & Hjobs & Hdone & Hlen).
    cbn [bind]. exists x'. split; [reflexivity|]. split; [exact Hjobs|].
    split; [rewrite Hjobs; apply has_job_filter_other|]. split; assumption.
  - rewrite Hfail. cbn [collection page]. rewrite Hretry.
    destruct (Increment_spec (collection job) (fst st)) as (x1 & -> & Hj1 & Hd1 & Hl1).
    cbn [bind]. unfold batch. cbn [Buf List.length Nat.eqb fst snd].
    destruct (Remove_spec {| collection := collection job;
                             page := GoInt.incr (page job) |} "" x1)
      as (x' & -> & Hjobs & Hdone & Hlen).
    cbn [bind collection page] in *. exists x'. split; [reflexivity|].
    rewrite Hjobs, Hdone, Hlen, Hj1, Hd1, Hl1, filter_increment.
    split; [reflexivity|]. split; [apply has_job_filter_other|]. split; reflexivity.
Qed.

(** On the archive without entries, the turn retires the job [n] of the
    seeded ledger with its DoneRecord of page 1. *)
Lemma empty_page_retires_job_witness :
  exists tasks,
    loop_body archive_empty seeded = Run (tasks, store0)
    /\ Tasks.active tasks
       = filter (fun k => negb (String.eqb (collection k) "n")) [job_n]
    /\ has_job "n" (Tasks.active tasks) = false
    /\ Tasks.Len tasks = GoInt.decr 1
    /\ Tasks.resolved tasks
       = [{| done_name := "n"; done_page := 1; done_reason := "" |}].
Proof.
  apply (empty_page_retires_job archive_empty seeded job_n 1);
    [reflexivity|left; split; reflexivity].
Defined.

(** C6 as stated fails: [n] is added and its empty page retires it, with
    its DoneRecord; [n] is added again, and the turn that finds its page
    empty deletes the job and appends no DoneRecord. *)
Lemma empty_page_appends_nothing :
  exists x1 st1 x2 st2,
    Tasks.Add "n" ledger0 = Run x1
    /\ loop_body archive_empty (x1, store0) = Run st1
    /\ Tasks.resolved (fst st1)
       = [{| done_name := "n"; done_page := 1; done_reason := "" |}]
    /\ Tasks.Add "n" (fst st1) = Run x2
    /\ Tasks.Next x2 = Run job_n
    /\ NewCollectionSubset archive_empty "n" batchSize 1 = Ok {| Buf := [] |}
    /\ loop_body archive_empty (x2, store0) = Run st2
    /\ Tasks.active (fst st2) = []
    /\ Tasks.resolved (fst st2) = Tasks.resolved x2.
Proof. do 4 eexists. repeat split; reflexivity. Qed.

(** * Further properties *)

(** ** The ledger *)

Lemma wrap_range (z : Z) : GoInt.in_range (GoInt.wrap z).
Proof.
  unfold GoInt.in_range, GoInt.wrap, GoInt.min_int, GoInt.max_int.
  pose proof (Z.mod_pos_bound (z + 2 ^ 63) (2 ^ 64) ltac:(lia)). lia.
Qed.

Lemma wrap_add_l (a b : Z) : GoInt.wrap (GoInt.wrap a + b) = GoInt.wrap (a + b).
Proof.
  unfold GoInt.wrap. f_equal.
  replace ((a + 2 ^ 63) mod 2 ^ 64 - 2 ^ 63 + b + 2 ^ 63)
    with ((a + 2 ^ 63) mod 2 ^ 64 + b) by lia.
  rewrite Z.add_mod_idemp_l by lia. f_equal. lia.
Qed.

Lemma stored_page_increment_other (name n : string) (rows : list Job) :
  String.eqb n name = false ->
  stored_page n
    (map (fun j => if String.eqb (collection j) name
                   then {| collection := collection j; page := page j + 1 |}
                   else j) rows)
  = stored_page n rows.
Proof.
  intros Hn. induction rows as [|j rows IH]; cbn; [reflexivity|].
  destruct (String.eqb (collection j) name) eqn:E; cbn; [|now rewrite IH].
  apply String.eqb_eq in E. rewrite E, String.eqb_sym, Hn.
  destruct (String.eqb (collection j) n) eqn:E'; [|exact IH].
  apply String.eqb_eq in E'. rewrite <- E', E, String.eqb_refl in Hn. discriminate Hn.
Qed.

Lemma increment_no_job (name : string) (rows : list Job) :
  has_job name rows = false ->
  map (fun j => if String.eqb (collection j) name
                then {| collection := collection j; page := page j + 1 |}
                else j) rows
  = rows.
Proof.
  induction rows as [|j rows IH]; cbn; [reflexivity|].
  destruct (String.eqb (collection j) name); cbn; [discriminate|].
  intros H. now rewrite IH.
Qed.

Lemma filter_no_job (name : string) (rows : list Job) :
  has_job name rows = false ->
  filter (fun j => negb (String.eqb (collection j) name)) rows = rows.
Proof.
  induction rows as [|j rows IH]; cbn; [reflexivity|].
  destruct (String.eqb (collection j) name); cbn; [discriminate|].
  intros H. now rewrite IH.
Qed.

(** X1: [Increment(name)] advances the stored page of [name] by one and
    of no other name, keeps the names of the jobs and their order, the
    done log and the live count; for a name that has no job it changes
    nothing at all. *)
Theorem Increment_one_job (name : string) (x : Tasks.t) :
  exists x',
    Tasks.Increment name x = Run x'
    /\ map collection (Tasks.active x') = map collection (Tasks.active x)
    /\ (forall n, stored_page n (Tasks.active x')
                  = if String.eqb n name
                    then option_map (fun p => p + 1) (stored_page n (Tasks.active x))
                    else stored_page n (Tasks.active x))
    /\ (has_job name (Tasks.active x) = false -> x' = x)
    /\ Tasks.resolved x' = Tasks.resolved x
    /\ Tasks.Len x' = Tasks.Len x.
Proof.
  destruct (Increment_spec name x) as (x' & Hrun & Hjobs & Hdone & Hlen).
  exists x'. split; [exact Hrun|]. rewrite Hjobs.
  split; [|split; [|split; [|split; assumption]]].
  - rewrite map_map. apply map_ext. intros j.
    now destruct (String.eqb (collection j) name).
  - intros n. destruct (String.eqb n name) eqn:E.
    + apply String.eqb_eq in E. subst n. apply stored_page_increment.
    + now apply stored_page_increment_other.
  - intros Hno. unfold Tasks.Increment, sql.Exec, sql.call in Hrun.
    cbn in Hrun. injection Hrun as <-.
    unfold Tasks.active in Hno. rewrite (increment_no_job _ _ Hno).
    destruct x as [[dsn [rows recs]] len]. reflexivity.
Qed.

(** [Increment] of a name that is not among the jobs [{A:3, B:1, C:1}]. *)
Lemma Increment_one_job_witness :
  exists x',
    Tasks.Increment "D" ledger_ABC = Run x'
    /\ x' = ledger_ABC.
Proof.
  destruct (Increment_one_job "D" ledger_ABC) as (x' & Hrun & _ & _ & Hsame & _).
  exists x'. split; [exact Hrun|]. apply Hsame. reflexivity.
Defined.

(** X2: [Remove] does not look whether the job exists.  For a name that
    has no job it leaves the jobs as they are, and still lowers the live
    count and appends the DoneRecord (when the name has none). *)
Theorem Remove_missing_job (x : Tasks.t) (j : Job) (r : string) :
  has_job (collection j) (Tasks.active x) = false ->
  exists x',
    Tasks.Remove j r x = Run x'
    /\ Tasks.active x' = Tasks.active x
    /\ Tasks.Len x' = GoInt.decr (Tasks.Len x)
    /\ Tasks.resolved x' =
         (if has_done (collection j) (Tasks.resolved x) then Tasks.resolved x
          else Tasks.resolved x
                 ++ [{| done_name := collection j; done_page := page j;
                        done_reason := r |}]).
Proof.
  intros Hno. destruct (Remove_spec j r x) as (x' & Hrun & Hjobs & Hdone & Hlen).
  exists x'. split; [exact Hrun|]. rewrite Hjobs, (filter_no_job _ _ Hno). auto.
Qed.

(** On the empty ledger the live count goes below zero. *)
Lemma Remove_missing_job_witness :
  exists x',
    Tasks.Remove job_n "gone" ledger0 = Run x'
    /\ Tasks.active x' = []
    /\ Tasks.Len x' = GoInt.decr 0
    /\ Tasks.resolved x'
       = [{| done_name := "n"; done_page := 1; done_reason := "gone" |}].
Proof.
  apply (Remove_missing_job ledger0 job_n "gone"). reflexivity.
Defined.

(** X3: the done log is written once.  Whatever [Add], [Increment] and
    [Remove] calls are run, the records that were in the log stay, in
    their order, and every record that is appended is of a name the log
    did not hold before the run. *)
Theorem done_log_only_grows (ops : list op) :
  forall x,
  exists x' more,
    run_ops ops x = Run x'
    /\ Tasks.resolved x' = Tasks.resolved x ++ more
    /\ Forall (fun d => has_done (done_name d) (Tasks.resolved x) = false) more.
Proof.
  induction ops as [|o ops IH]; intros x; cbn [run_ops].
  - exists x, []. rewrite app_nil_r. auto.
  - assert (H1 : exists x1 m1,
               apply_op o x = Run x1
               /\ Tasks.resolved x1 = Tasks.resolved x ++ m1
               /\ Forall (fun d => has_done (done_name d) (Tasks.resolved x) = false) m1).
    { destruct o as [name|name|job reason]; cbn [apply_op].
      - destruct (Add_spec name x) as (x1 & -> & _ & Hd & _).
        exists x1, []. rewrite app_nil_r. auto.
      - destruct (Increment_spec name x) as (x1 & -> & _ & Hd & _).
        exists x1, []. rewrite app_nil_r. auto.
      - destruct (Remove_spec job reason x) as (x1 & -> & _ & Hd & _).
        destruct (has_done (collection job) (Tasks.resolved x)) eqn:E.
        + exists x1, []. rewrite app_nil_r. auto.
        + eexists x1, [_]. split; [reflexivity|]. split; [exact Hd|].
          constructor; [exact E|constructor]. }
    destruct H1 as (x1 & m1 & -> & Hd1 & Hf1). cbn [bind].
    destruct (IH x1) as (x' & more & -> & Hd & Hf).
    exists x', (m1 ++ more). split; [reflexivity|].
    rewrite Hd, Hd1, app_assoc. split; [reflexivity|].
    apply Forall_app. split; [exact Hf1|].
    eapply Forall_impl; [|exact Hf]. cbn. intros d Hnot.
    rewrite Hd1 in Hnot. unfold has_done in *. rewrite existsb_app in Hnot.
    now apply orb_false_iff in Hnot.
Qed.

(** X4: from the empty ledger, whatever calls are run, no name has two
    rows in [jobs] and none has two rows in [done]. *)
Theorem ledger_keys_kept (ops : list op) :
  exists x, run_ops ops ledger0 = Run x /\ keyed x.
Proof. apply run_ops_keyed. split; constructor. Qed.

Lemma Len_counts_from (ops : list op) :
  forall x, GoInt.in_range (Tasks.Len x) ->
  exists x',
    run_ops ops x = Run x'
    /\ Tasks.Len x' = GoInt.wrap (Tasks.Len x + adds ops - removes ops).
Proof.
  induction ops as [|o ops IH]; intros x Hr; cbn [run_ops adds removes].
  - exists x. split; [reflexivity|]. rewrite wrap_in_range; [lia|].
    now replace (Tasks.Len x + 0 - 0) with (Tasks.Len x) by lia.
  - destruct o as [name|name|job reason]; cbn [apply_op].
    + destruct (Add_spec name x) as (x1 & -> & _ & _ & Hl & _). cbn [bind].
      destruct (IH x1) as (x' & -> & Hl'); [rewrite Hl; apply wrap_range|].
      exists x'. split; [reflexivity|]. rewrite Hl', Hl.
      unfold GoInt.incr. rewrite <- Z.add_sub_assoc, wrap_add_l. f_equal. lia.
    + destruct (Increment_spec name x) as (x1 & -> & _ & _ & Hl). cbn [bind].
      destruct (IH x1) as (x' & -> & Hl'); [now rewrite Hl|].
      exists x'. split; [reflexivity|]. now rewrite Hl', Hl.
    + destruct (Remove_spec job reason x) as (x1 & -> & _ & _ & Hl). cbn [bind].
      destruct (IH x1) as (x' & -> & Hl'); [rewrite Hl; apply wrap_range|].
      exists x'. split; [reflexivity|]. rewrite Hl', Hl.
      unfold GoInt.decr. rewrite <- Z.add_sub_assoc, wrap_add_l. f_equal. lia.
Qed.

(** X5: [Len()] counts calls, not rows.  After any run from the empty
    ledger it is the number of [Add] calls less the number of [Remove]
    calls (as a Go [int]), whether or not a call inserted or deleted a
    job. *)
Theorem Len_counts_calls (ops : list op) :
  exists x,
    run_ops ops ledger0 = Run x
    /\ Tasks.Len x = GoInt.wrap (adds ops - removes ops).
Proof.
  destruct (Len_counts_from ops ledger0) as (x & Hrun & Hl).
  { unfold GoInt.in_range, GoInt.min_int, GoInt.max_int. cbn. lia. }
  exists x. split; [exact Hrun|]. rewrite Hl. reflexivity.
Qed.

Lemma stored_page_new (name : string) (rows : list Job) (p : Z) :
  has_job name rows = false ->
  stored_page name (rows ++ [{| collection := name; page := p |}]) = Some p.
Proof.
  induction rows as [|j rows IH]; cbn.
  - now rewrite String.eqb_refl.
  - destruct (String.eqb (collection j) name); cbn; [discriminate|exact IH].
Qed.

Lemma stored_page_has_job (name : string) (rows : list Job) :
  has_job name rows = true <-> exists p, stored_page name rows = Some p.
Proof.
  induction rows as [|j rows IH]; cbn.
  - split; [discriminate|intros [p H]; discriminate H].
  - destruct (String.eqb (collection j) name); cbn; [|exact IH].
    split; eauto.
Qed.

(** X6: a name that has no job gets one at page 1, and the job [Next()]
    then returns is of page 1 at most: a newly found collection is never
    kept waiting behind the later pages of an older one. *)
Theorem Add_then_Next (name : string) (x : Tasks.t) :
  has_job name (Tasks.active x) = false ->
  exists x' j,
    Tasks.Add name x = Run x'
    /\ stored_page name (Tasks.active x') = Some 1
    /\ Tasks.Next x' = Run j
    /\ page j <= 1.
Proof.
  intros Hno. destruct (Add_spec name x) as (x' & Hrun & Hjobs & _).
  rewrite Hno in Hjobs.
  destruct (order_by_page_limit_1 (Tasks.active x')) as [m|] eqn:E.
  - exists x', m. split; [exact Hrun|]. rewrite Next_spec, E.
    split; [rewrite Hjobs; now apply stored_page_new|]. split; [reflexivity|].
    destruct (order_by_page_limit_1_least _ _ E) as [_ Hle].
    apply (Hle {| collection := name; page := 1 |}).
    rewrite Hjobs. apply in_or_app. right. now left.
  - apply order_by_page_limit_1_none in E. rewrite Hjobs in E.
    now destruct (Tasks.active x).
Qed.

(** The name [D] is added to the jobs [{A:3, B:1, C:1}]. *)
Lemma Add_then_Next_witness :
  exists x' j,
    Tasks.Add "D" ledger_ABC = Run x'
    /\ stored_page "D" (Tasks.active x') = Some 1
    /\ Tasks.Next x' = Run j
    /\ page j <= 1.
Proof. apply (Add_then_Next "D" ledger_ABC). reflexivity. Defined.

Lemma pages_positive (ops : list op) :
  forall x, Forall (fun j => 1 <= page j) (Tasks.active x) ->
  forall x', run_ops ops x = Run x' ->
  Forall (fun j => 1 <= page j) (Tasks.active x').
Proof.
  induction ops as [|o ops IH]; intros x Hpos x'; cbn [run_ops].
  - now intros [= <-].
  - assert (H1 : exists x1, apply_op o x = Run x1
                            /\ Forall (fun j => 1 <= page j) (Tasks.active x1)).
    { destruct o as [name|name|job reason]; cbn [apply_op].
      - destruct (Add_spec name x) as (x1 & -> & Hj & _). exists x1.
        split; [reflexivity|]. rewrite Hj.
        destruct (has_job name (Tasks.active x)); [exact Hpos|].
        apply Forall_app. split; [exact Hpos|]. repeat constructor. cbn. lia.
      - destruct (Increment_spec name x) as (x1 & -> & Hj & _). exists x1.
        split; [reflexivity|]. rewrite Hj. apply Forall_map.
        eapply Forall_impl; [|exact Hpos]. cbn. intros j Hle.
        destruct (String.eqb (collection j) name); cbn; lia.
      - destruct (Remove_spec job reason x) as (x1 & -> & Hj & _). exists x1.
        split; [reflexivity|]. rewrite Hj. apply Forall_forall.
        intros j Hin. apply filter_In in Hin.
        rewrite Forall_forall in Hpos. now apply Hpos. }
    destruct H1 as (x1 & -> & Hpos1). cbn [bind]. now apply IH.
Qed.

(** X7: in a ledger run up from the empty one, every job is at page 1 or
    later, so the fetch of the page of the job [Next()] returns is never
    turned down by the bounds test of [NewCollectionSubset]: its result is
    the archive's answer. *)
Theorem first_fetch_passes_guard (ops : list op) (a : Archive) (x : Tasks.t)
  (job : Job) :
  run_ops ops ledger0 = Run x ->
  Tasks.Next x = Run job ->
  1 <= page job
  /\ NewCollectionSubset a (collection job) batchSize (page job)
     = match advancedsearch a (collection job) batchSize (page job) with
       | Err e => Err e
       | Ok names => Ok {| Buf := names |}
       end.
Proof.
  intros Hrun Hnext.
  assert (Hpos : 1 <= page job).
  { pose proof (pages_positive ops ledger0 (Forall_nil _) x Hrun) as Hall.
    rewrite Forall_forall in Hall. apply Hall. now apply Next_In. }
  split; [exact Hpos|]. unfold NewCollectionSubset, batchSize.
  destruct (page job <? 1) eqn:E; [apply Z.ltb_lt in E; lia|]. reflexivity.
Qed.

(** After [n] is added and its page advanced twice, page 3 is asked for. *)
Lemma first_fetch_passes_guard_witness :
  1 <= 3
  /\ NewCollectionSubset archive_retry_full "n" batchSize 3
     = match advancedsearch archive_retry_full "n" batchSize 3 with
       | Err e => Err e
       | Ok names => Ok {| Buf := names |}
       end.
Proof.
  apply (first_fetch_passes_guard [OpAdd "n"; OpIncrement "n"; OpIncrement "n"]
           archive_retry_full
           (ledger_of [{| collection := "n"; page := 3 |}])
           {| collection := "n"; page := 3 |});
    reflexivity.
Defined.

(** ** The hash store *)

Lemma has_hash_In (h : list Z) (rows : list (list Z * Z)) :
  has_hash h rows = true <-> In h (map fst rows).
Proof.
  unfold has_hash, blob_eqb. rewrite existsb_exists, in_map_iff. split.
  - intros (r & Hin & E). destruct (list_eq_dec Z.eq_dec (fst r) h); [eauto|discriminate].
  - intros (r & E & Hin). exists r. split; [exact Hin|].
    now destruct (list_eq_dec Z.eq_dec (fst r) h).
Qed.

Lemma has_item_In (name : string) (rows : list (Z * string)) :
  has_item name rows = true <-> In name (map snd rows).
Proof.
  unfold has_item. rewrite existsb_exists, in_map_iff. split.
  - intros (r & Hin & E). apply String.eqb_eq in E. eauto.
  - intros (r & E & Hin). exists r. split; [exact Hin|]. now apply String.eqb_eq.
Qed.

Lemma reverseHexTable_range (c : ascii) :
  0 <= hex.reverseHexTable c <= 255
  /\ (hex.reverseHexTable c >? 15) = negb (hex_digit c).
Proof.
  unfold hex.reverseHexTable, hex_digit.
  set (n := Z.of_N (N_of_ascii c)).
  assert (Hn : 0 <= n < 256).
  { unfold n. pose proof (N_ascii_bounded c). lia. }
  rewrite Z.gtb_ltb.
  destruct (48 <=? n) eqn:E1, (n <=? 57) eqn:E2, (97 <=? n) eqn:E3,
           (n <=? 102) eqn:E4, (65 <=? n) eqn:E5, (n <=? 70) eqn:E6;
    cbn [andb orb negb];
    rewrite ?Z.leb_le, ?Z.leb_gt in *;
    (split; [lia|]);
    first [apply Z.ltb_ge; lia | apply Z.ltb_lt; lia].
Qed.

Lemma nibbles_byte (a b : Z) :
  0 <= a <= 15 -> 0 <= b <= 15 -> 0 <= Z.lor (Z.shiftl a 4) b <= 255.
Proof.
  intros Ha Hb. rewrite Z.shiftl_mul_pow2 by lia.
  pose proof (Z.add_lor_land (a * 2 ^ 4) b) as Hsum.
  assert (0 <= Z.land (a * 2 ^ 4) b) by (apply Z.land_nonneg; lia).
  assert (0 <= Z.lor (a * 2 ^ 4) b) by (apply Z.lor_nonneg; lia).
  lia.
Qed.

Lemma DecodeString_bytes (s : string) :
  Forall (fun b => 0 <= b <= 255) (fst (hex.DecodeString s)).
Proof.
  induction s as [|c|c c' s IH] using string_pairs_ind.
  - constructor.
  - cbn. destruct (hex.reverseHexTable c >? 15); constructor.
  - cbn [hex.DecodeString].
    destruct (reverseHexTable_range c) as [Hc _].
    destruct (reverseHexTable_range c') as [Hc' _].
    destruct (hex.reverseHexTable c >? 15) eqn:E; [constructor|].
    destruct (hex.reverseHexTable c' >? 15) eqn:E'; [constructor|].
    rewrite Z.gtb_ltb in E, E'. apply Z.ltb_ge in E, E'.
    destruct (hex.DecodeString s) as [bs e]. cbn [fst] in *.
    constructor; [apply nibbles_byte; lia|exact IH].
Qed.

Lemma DecodeString_all_hex (s : string) :
  snd (hex.DecodeString s) = None
  <-> Nat.even (String.length s) = true /\ all_hex s = true.
Proof.
  induction s as [|c|c c' s IH] using string_pairs_ind.
  - cbn. tauto.
  - cbn. destruct (hex.reverseHexTable c >? 15); cbn;
      split; [discriminate|intros [H _]; discriminate H
             |discriminate|intros [H _]; discriminate H].
  - cbn [hex.DecodeString String.length all_hex]. rewrite Nat.even_succ_succ.
    destruct (reverseHexTable_range c) as [_ ->].
    destruct (reverseHexTable_range c') as [_ ->].
    destruct (hex_digit c); cbn [negb andb];
      [|split; [discriminate|intros [_ H]; discriminate H]].
    destruct (hex_digit c'); cbn [negb andb];
      [|split; [discriminate|intros [_ H]; discriminate H]].
    destruct (hex.DecodeString s) as [bs e]. exact IH.
Qed.

(** A property of the hash table that every accepted insert keeps is kept
    by the file loop. *)
Lemma file_loop_keeps (P : list (list Z * Z) -> Prop) (item : string) (id : Z)
  (fs : list File) :
  (forall d f bs, P (hashes (sql.tables d)) -> accepted item id d f bs ->
                  P (hashes (sql.tables d) ++ [(bs, id)])) ->
  forall d ins,
    P (hashes (sql.tables d)) ->
    P (hashes (sql.tables (fst (fold_left (Storage.file_step item id) fs (d, ins))))).
Proof.
  intros Hstep. induction fs as [|f fs IH]; intros d ins HP; cbn [fold_left]; [exact HP|].
  destruct (file_step_cases item id d ins f) as [(bs & Hacc & Hrows & _)|[_ Heq]].
  - destruct (Storage.file_step item id (d, ins) f) as [d1 ins1].
    apply IH. cbn [fst] in Hrows. rewrite Hrows. now apply (Hstep d f).
  - rewrite Heq. now apply IH.
Qed.

(** What a call of [NewEntry] leaves: the store it found, with an error;
    or the store with the item row added and the hash rows of the loop. *)
Lemma NewEntry_shape (im : ItemMetadata) (item : string) (s : Storage.t) :
  (fst (Storage.NewEntry im item s) = s
   /\ snd (Storage.NewEntry im item s) <> None
   /\ (Files im = [] \/ has_item item (Storage.items s) = true))
  \/ (Files im <> []
      /\ has_item item (Storage.items s) = false
      /\ Storage.items (fst (Storage.NewEntry im item s))
         = Storage.items s ++ [(sqlite_sequence (sql.tables (Storage.db s)) + 1, item)]
      /\ exists extra,
          Storage.rows (fst (Storage.NewEntry im item s)) = Storage.rows s ++ extra
          /\ Forall (fun r => snd r = sqlite_sequence (sql.tables (Storage.db s)) + 1)
                    extra
          /\ snd (Storage.NewEntry im item s)
             = if Nat.eqb (List.length extra) 0 then Some "no valid files" else None).
Proof.
  destruct (Files im) as [|f fs] eqn:Efiles.
  { left. rewrite NewEntry_no_files by assumption. cbn.
    split; [reflexivity|]. split; [discriminate|now left]. }
  destruct (has_item item (Storage.items s)) eqn:Ehas.
  { left. rewrite NewEntry_recorded by (rewrite ?Efiles; congruence). cbn.
    split; [reflexivity|]. split; [discriminate|now right]. }
  right. split; [discriminate|]. split; [reflexivity|].
  pose proof (insName_spec item (Storage.db s)) as Hexec.
  unfold Storage.items in Ehas. rewrite Ehas in Hexec.
  rewrite (NewEntry_loop im item s _ _ ltac:(rewrite Efiles; discriminate) Hexec).
  unfold Storage.items, Storage.rows. cbn [sql.LastInsertId fst snd Storage.db].
  match goal with
  | |- context [fold_left (Storage.file_step item ?id) ?l (?d, false)] =>
      destruct (file_loop_spec item id l d false) as (extra & Hr & Hi & Hf & Hall)
  end.
  rewrite Hi, Hr, Hf. cbn [sql.tables archive_items hashes orb].
  split; [reflexivity|]. exists extra. split; [reflexivity|]. split; [exact Hall|].
  now destruct (Nat.eqb (List.length extra) 0).
Qed.

Lemma NewEntry_keeps (P : list (list Z * Z) -> Prop) (im : ItemMetadata)
  (item : string) (s : Storage.t) :
  (forall id d f bs, P (hashes (sql.tables d)) -> accepted item id d f bs ->
                     P (hashes (sql.tables d) ++ [(bs, id)])) ->
  P (Storage.rows s) -> P (Storage.rows (fst (Storage.NewEntry im item s))).
Proof.
  intros Hstep HP. destruct (Files im) as [|f fs] eqn:Efiles.
  { now rewrite NewEntry_no_files. }
  destruct (has_item item (Storage.items s)) eqn:Ehas.
  { now rewrite NewEntry_recorded by (rewrite ?Efiles; congruence). }
  pose proof (insName_spec item (Storage.db s)) as Hexec.
  unfold Storage.items in Ehas. rewrite Ehas in Hexec.
  rewrite (NewEntry_loop im item s _ _ ltac:(rewrite Efiles; discriminate) Hexec).
  unfold Storage.rows. cbn [fst Storage.db].
  apply file_loop_keeps; [apply Hstep|exact HP].
Qed.

(** X8: [NewEntry] only adds.  The item rows and the hash rows it finds
    stay, in their order; and it keeps the keys of the schema: if no name
    had two item rows and no hash two hash rows before, none has
    afterwards. *)
Theorem NewEntry_only_adds (im : ItemMetadata) (item : string) (s : Storage.t) :
  (exists more_items more_rows,
      Storage.items (fst (Storage.NewEntry im item s)) = Storage.items s ++ more_items
      /\ Storage.rows (fst (Storage.NewEntry im item s)) = Storage.rows s ++ more_rows)
  /\ (NoDup (map snd (Storage.items s)) ->
      NoDup (map snd (Storage.items (fst (Storage.NewEntry im item s)))))
  /\ (NoDup (map fst (Storage.rows s)) ->
      NoDup (map fst (Storage.rows (fst (Storage.NewEntry im item s))))).
Proof.
  split; [|split].
  - destruct (NewEntry_shape im item s)
      as [(-> & _)|(_ & _ & Hi & extra & Hr & _)].
    + exists [], []. now rewrite !app_nil_r.
    + eauto.
  - intros Hnd. destruct (NewEntry_shape im item s)
      as [(-> & _)|(_ & Hnew & Hi & _)]; [exact Hnd|].
    rewrite Hi, map_app. apply NoDup_snoc; [exact Hnd|].
    rewrite <- has_item_In. cbn [snd]. congruence.
  - apply (NewEntry_keeps (fun rows => NoDup (map fst rows))).
    intros id d f bs Hnd (_ & _ & _ & _ & r & Hr).
    rewrite insHash_spec in Hr.
    destruct (has_hash bs (hashes (sql.tables d))) eqn:E; [discriminate Hr|].
    rewrite map_app. apply NoDup_snoc; [exact Hnd|].
    rewrite <- has_hash_In. cbn [fst]. congruence.
Qed.

(** The three files of [x] are recorded in the empty store. *)
Lemma NewEntry_only_adds_witness :
  NoDup (map fst (Storage.rows (fst (Storage.NewEntry three_files "x" store0)))).
Proof.
  apply (proj2 (proj2 (NewEntry_only_adds three_files "x" store0))). constructor.
Defined.

(** X9: when [NewEntry] returns no error, the item was not recorded
    before and had files; the store has gained the one item row of the
    item, under the next id, and at least one hash row, and every hash row
    gained points at that id. *)
Theorem NewEntry_success (im : ItemMetadata) (item : string) (s : Storage.t) :
  snd (Storage.NewEntry im item s) = None ->
  Files im <> []
  /\ has_item item (Storage.items s) = false
  /\ Storage.items (fst (Storage.NewEntry im item s))
     = Storage.items s ++ [(sqlite_sequence (sql.tables (Storage.db s)) + 1, item)]
  /\ exists more,
      Storage.rows (fst (Storage.NewEntry im item s)) = Storage.rows s ++ more
      /\ more <> []
      /\ Forall (fun r => snd r = sqlite_sequence (sql.tables (Storage.db s)) + 1) more.
Proof.
  intros Hok. destruct (NewEntry_shape im item s)
    as [(_ & Herr & _)|(Hne & Hnew & Hi & extra & Hr & Hall & Hf)];
    [contradiction|].
  split; [exact Hne|]. split; [exact Hnew|]. split; [exact Hi|].
  exists extra. split; [exact Hr|]. split; [|exact Hall].
  rewrite Hok in Hf. now destruct extra.
Qed.

(** The three files of [x] in the empty store: one hash row, of item 1. *)
Lemma NewEntry_success_witness :
  Files three_files <> []
  /\ has_item "x" (Storage.items store0) = false
  /\ Storage.items (fst (Storage.NewEntry three_files "x" store0))
     = Storage.items store0 ++ [(0 + 1, "x")]
  /\ exists more,
      Storage.rows (fst (Storage.NewEntry three_files "x" store0))
      = Storage.rows store0 ++ more
      /\ more <> []
      /\ Forall (fun r => snd r = 0 + 1) more.
Proof. apply (NewEntry_success three_files "x" store0). reflexivity. Defined.

(** X10: an item is taken up once.  After a call of [NewEntry] for an
    item with files, whether it succeeded or ended in "no valid files",
    every later call for the same item fails and leaves the store as it
    is. *)
Theorem NewEntry_once (im im' : ItemMetadata) (item : string) (s : Storage.t) :
  Files im <> [] ->
  fst (Storage.NewEntry im' item (fst (Storage.NewEntry im item s)))
  = fst (Storage.NewEntry im item s)
  /\ snd (Storage.NewEntry im' item (fst (Storage.NewEntry im item s))) <> None.
Proof.
  intros Hne.
  assert (Hhas : has_item item (Storage.items (fst (Storage.NewEntry im item s))) = true).
  { destruct (NewEntry_shape im item s)
      as [(-> & _ & [H|H])|(_ & _ & Hi & _)]; [contradiction|exact H|].
    rewrite Hi. unfold has_item. rewrite existsb_app. cbn.
    rewrite String.eqb_refl. now rewrite orb_true_r. }
  destruct (NewEntry_shape im' item (fst (Storage.NewEntry im item s)))
    as [(H1 & H2 & _)|(_ & Hnew & _)]; [now split|congruence].
Qed.

(** The item [y] with the thumbnail alone, and then with a good file. *)
Lemma NewEntry_once_witness :
  fst (Storage.NewEntry one_more "y" (fst (Storage.NewEntry only_thumb "y" store0)))
  = fst (Storage.NewEntry only_thumb "y" store0)
  /\ snd (Storage.NewEntry one_more "y" (fst (Storage.NewEntry only_thumb "y" store0)))
     <> None.
Proof. apply (NewEntry_once only_thumb one_more "y" store0). discriminate. Defined.

(** X11: the hash table holds SHA-1 values.  If every hash row is of 20
    bytes, each from 0 to 255, before a call of [NewEntry], so is every
    hash row after it. *)
Theorem NewEntry_rows_are_sha1 (im : ItemMetadata) (item : string) (s : Storage.t) :
  Forall sha1_row (Storage.rows s) ->
  Forall sha1_row (Storage.rows (fst (Storage.NewEntry im item s))).
Proof.
  apply (NewEntry_keeps (Forall sha1_row)).
  intros id d f bs Hall (_ & _ & Hdec & Hlen & _).
  apply Forall_app. split; [exact Hall|]. repeat constructor; cbn [fst]; [exact Hlen|].
  pose proof (DecodeString_bytes (Hash f)) as Hb. now rewrite Hdec in Hb.
Qed.

(** The three files of [x] in the empty store. *)
Lemma NewEntry_rows_are_sha1_witness :
  Forall sha1_row (Storage.rows (fst (Storage.NewEntry three_files "x" store0))).
Proof. apply (NewEntry_rows_are_sha1 three_files "x" store0). constructor. Defined.

(** X12: which files the loop of [NewEntry] takes.  A turn of the loop
    sets the [inserted] flag exactly for a file that is not the thumbnail,
    is not the item's name with one of the five suffixes, whose hash
    string is 40 hexadecimal digits of either case, and whose hash is not
    in the hash table yet. *)
Theorem file_step_takes (item : string) (id : Z) (d : sql.DB HashTables) (f : File) :
  snd (Storage.file_step item id (d, false) f) = true
  <-> Name f <> "__ia_thumb.jpg"
      /\ (forall suffix, In suffix suffixes -> Name f <> String.append item suffix)
      /\ String.length (Hash f) = 40%nat
      /\ all_hex (Hash f) = true
      /\ has_hash (fst (hex.DecodeString (Hash f))) (hashes (sql.tables d)) = false.
Proof.
  destruct (file_step_cases item id d false f)
    as [(bs & Hacc & _ & _ & Hflag)|[Hno Heq]].
  - rewrite Hflag. split; [intros _|reflexivity].
    destruct Hacc as (Hn & Hs & Hdec & Hlen & r & Hr).
    split; [exact Hn|]. split; [exact Hs|].
    pose proof (DecodeString_length _ _ Hdec) as Hl.
    split; [lia|]. split.
    + apply DecodeString_all_hex. now rewrite Hdec.
    + rewrite Hdec. cbn [fst]. rewrite insHash_spec in Hr.
      now destruct (has_hash bs (hashes (sql.tables d))).
  - rewrite Heq. cbn [snd]. split; [discriminate|].
    intros (Hn & Hs & Hlen & Hhex & Hfresh).
    destruct (hex.DecodeString (Hash f)) as [bs e] eqn:Hdec.
    assert (He : e = None).
    { pose proof (proj2 (DecodeString_all_hex (Hash f))) as H.
      rewrite Hdec in H. apply H. rewrite Hlen. now split. }
    subst e. elim (Hno bs). split; [exact Hn|]. split; [exact Hs|].
    split; [exact Hdec|]. pose proof (DecodeString_length _ _ Hdec).
    split; [lia|]. cbn [fst] in Hfresh. rewrite insHash_spec, Hfresh. eauto.
Qed.

(** The file [data.bin] of [x] is taken. *)
Lemma file_step_takes_witness :
  snd (Storage.file_step "x" 1 (store0_with_x, false) data_bin) = true.
Proof.
  apply (proj2 (file_step_takes "x" 1 store0_with_x data_bin)).
  split; [discriminate|]. split.
  - intros suffix Hin. cbn in Hin.
    repeat (destruct Hin as [<-|Hin]; [discriminate|]). destruct Hin.
  - repeat split; reflexivity.
Defined.

(** ** The archive and the crawl loop *)



(** X14: when the fetch of the job's page and the fetch of the next page
    both fail, the loop body deletes the rows of the job's name and no
    other, lowers the live count by one, leaves the hash store alone, and
    appends the DoneRecord of the name, the next page and the text of the
    second error when the name has no DoneRecord. *)
Theorem failed_fetches_retire_job (a : Archive) (st : stores) (job : Job)
  (e1 e2 : error) :
  Tasks.Next (fst st) = Run job ->
  NewCollectionSubset a (collection job) batchSize (page job) = Err e1 ->
  NewCollectionSubset a (collection job) batchSize (GoInt.incr (page job)) = Err e2 ->
  exists tasks,
    loop_body a st = Run (tasks, snd st)
    /\ Tasks.active tasks
       = filter (fun k => negb (String.eqb (collection k) (collection job)))
                (Tasks.active (fst st))
    /\ has_job (collection job) (Tasks.active tasks) = false
    /\ Tasks.Len tasks = GoInt.decr (Tasks.Len (fst st))
    /\ Tasks.resolved tasks
       = (if has_done (collection job) (Tasks.resolved (fst st))
          then Tasks.resolved (fst st)
          else Tasks.resolved (fst st)
                 ++ [{| done_name := collection job;
                        done_page := GoInt.incr (page job);
                        done_reason := e2 |}]).
Proof.
  intros Hnext H1 H2. unfold loop_body. rewrite Hnext. cbn [bind].
  rewrite H1. cbn [collection page]. rewrite H2.
  destruct (Remove_spec {| collection := collection job;
                           page := GoInt.incr (page job) |} e2 (fst st))
    as (x' & -> & Hjobs & Hdone & Hlen).
  cbn [bind collection page] in *. exists x'. split; [reflexivity|].
  split; [exact Hjobs|]. split; [rewrite Hjobs; apply has_job_filter_other|].
  split; assumption.
Qed.

(** X15: when the fetch of the job's page succeeds with at least one
    entry, the loop body runs to its end, the stored page of the job is 1
    more than before (the page of the job itself, names being unique), and
    the done log is as it was. *)
Theorem fetched_page_advances_by_one (a : Archive) (st : stores) (job : Job)
  (co : CollectionSubset) :
  Tasks.Next (fst st) = Run job ->
  NewCollectionSubset a (collection job) batchSize (page job) = Ok co ->
  Buf co <> [] ->
  exists st' p,
    loop_body a st = Run st'
    /\ stored_page (collection job) (Tasks.active (fst st)) = Some p
    /\ stored_page (collection job) (Tasks.active (fst st')) = Some (p + 1)
    /\ Tasks.resolved (fst st') = Tasks.resolved (fst st)
    /\ (NoDup (map collection (Tasks.active (fst st))) -> p = page job).
Proof.
  intros Hnext Hfetch Hne.
  pose proof (Next_In _ _ Hnext) as Hin.
  destruct (stored_page_In _ _ Hin) as [p Hp].
  unfold loop_body. rewrite Hnext. cbn [bind]. rewrite Hfetch. unfold batch.
  destruct (Buf co) as [|name names] eqn:Ebuf; [contradiction|].
  cbn [List.length Nat.eqb].
  destruct (items_spec a (name :: names) st) as (st2 & -> & Hd2 & Hp2).
  cbn [bind].
  destruct (Increment_spec (collection job) (fst st2)) as (x3 & -> & Hj3 & Hd3 & _).
  cbn [bind]. exists (x3, snd st2), p. cbn [fst].
  split; [reflexivity|]. split; [exact Hp|]. split; [|split].
  - rewrite Hj3, stored_page_increment, (Hp2 _ _ Hp). reflexivity.
  - congruence.
  - intros Hnd. rewrite (stored_page_NoDup _ _ Hnd Hin) in Hp. congruence.
Qed.

(** The job [n] of the seeded ledger, on the archive that is down. *)
Lemma failed_fetches_retire_job_witness :
  exists tasks,
    loop_body archive_down seeded = Run (tasks, store0)
    /\ Tasks.active tasks
       = filter (fun k => negb (String.eqb (collection k) "n")) [job_n]
    /\ has_job "n" (Tasks.active tasks) = false
    /\ Tasks.Len tasks = GoInt.decr 1
    /\ Tasks.resolved tasks
       = [{| done_name := "n"; done_page := GoInt.incr 1;
             done_reason := "connection refused" |}].
Proof.
  apply (failed_fetches_retire_job archive_down seeded job_n
           "connection refused" "connection refused");
    reflexivity.
Defined.

(** The job [n] at page 2, whose page lists two entries. *)
Lemma fetched_page_advances_by_one_witness :
  exists st' p,
    loop_body archive_retry_full
      (ledger_of [{| collection := "n"; page := 2 |}], store0) = Run st'
    /\ Some 2 = Some p
    /\ stored_page "n" (Tasks.active (fst st')) = Some (p + 1)
    /\ Tasks.resolved (fst st') = []
    /\ (NoDup ["n"] -> p = 2).
Proof.
  apply (fetched_page_advances_by_one archive_retry_full
           (ledger_of [{| collection := "n"; page := 2 |}], store0)
           {| collection := "n"; page := 2 |}
           {| Buf := ["leafA"; "subB"] |});
    [reflexivity|reflexivity|discriminate].
Defined.

Lemma stored_page_filter_other (name n : string) (rows : list Job) :
  n <> name ->
  stored_page n (filter (fun j => negb (String.eqb (collection j) name)) rows)
  = stored_page n rows.
Proof.
  intros Hn. induction rows as [|j rows IH]; cbn; [reflexivity|].
  destruct (String.eqb (collection j) name) eqn:E; cbn.
  - apply String.eqb_eq in E.
    destruct (String.eqb (collection j) n) eqn:E'; [|exact IH].
    apply String.eqb_eq in E'. congruence.
  - now rewrite IH.
Qed.

Lemma store_grows_refl (s : Storage.t) : store_grows s s.
Proof. exists [], []. now rewrite !app_nil_r. Qed.

Lemma store_grows_trans (s1 s2 s3 : Storage.t) :
  store_grows s1 s2 -> store_grows s2 s3 -> store_grows s1 s3.
Proof.
  intros (i1 & r1 & Hi1 & Hr1) (i2 & r2 & Hi2 & Hr2).
  exists (i1 ++ i2), (r1 ++ r2). rewrite Hi2, Hr2, Hi1, Hr1, !app_assoc. now split.
Qed.

Lemma NewEntry_store_grows (im : ItemMetadata) (item : string) (s : Storage.t) :
  store_grows s (fst (Storage.NewEntry im item s)).
Proof.
  destruct (NewEntry_shape im item s) as [(-> & _)|(_ & _ & Hi & extra & Hr & _)].
  - apply store_grows_refl.
  - exists [(sqlite_sequence (sql.tables (Storage.db s)) + 1, item)], extra.
    now split.
Qed.

Lemma items_store_grows (a : Archive) (names : list string) :
  forall st st', items a names st = Run st' -> store_grows (snd st) (snd st').
Proof.
  induction names as [|name names IH]; intros st st'; cbn [items].
  - intros [= <-]. apply store_grows_refl.
  - unfold item_step. destruct (NewItemMetadata a name) as [im|e]; [|now apply IH].
    destruct (IsCollection im).
    + destruct (Add_spec name (fst st)) as (x' & -> & _). cbn [bind].
      intros H. now apply IH in H.
    + cbn [bind]. intros H. apply IH in H. cbn [snd] in H.
      eapply store_grows_trans; [apply NewEntry_store_grows|exact H].
Qed.

Lemma Remove_local (job : Job) (reason : string) (x : Tasks.t) :
  exists x',
    Tasks.Remove job reason x = Run x'
    /\ keeps_others (collection job) x x'
    /\ log_step (collection job) x x'.
Proof.
  destruct (Remove_spec job reason x) as (x' & Hrun & Hjobs & Hdone & _).
  exists x'. split; [exact Hrun|]. split.
  - intros n p Hn Hp. rewrite Hjobs. now rewrite stored_page_filter_other.
  - unfold log_step. rewrite Hdone.
    destruct (has_done (collection job) (Tasks.resolved x)); [now left|].
    right. eexists. split; [|reflexivity]. reflexivity.
Qed.

Lemma Increment_local (name : string) (x : Tasks.t) :
  exists x',
    Tasks.Increment name x = Run x'
    /\ keeps_others name x x'
    /\ Tasks.resolved x' = Tasks.resolved x.
Proof.
  destruct (Increment_spec name x) as (x' & Hrun & Hjobs & Hdone & _).
  exists x'. split; [exact Hrun|]. split; [|exact Hdone].
  intros n p Hn Hp. rewrite Hjobs, stored_page_increment_other; [exact Hp|].
  now apply String.eqb_neq.
Qed.

Lemma batch_local (a : Archive) (job : Job) (co : CollectionSubset) (st : stores) :
  exists st',
    batch a job co st = Run st'
    /\ keeps_others (collection job) (fst st) (fst st')
    /\ log_step (collection job) (fst st) (fst st')
    /\ store_grows (snd st) (snd st').
Proof.
  unfold batch. destruct (Nat.eqb (List.length (Buf co)) 0).
  - destruct (Remove_local job "" (fst st)) as (x' & -> & Hk & Hl). cbn [bind].
    exists (x', snd st). split; [reflexivity|]. split; [exact Hk|].
    split; [exact Hl|apply store_grows_refl].
  - destruct (items_spec a (Buf co) st) as (st1 & Hrun & Hd1 & Hp1).
    pose proof (items_store_grows a _ _ _ Hrun) as Hg. rewrite Hrun. cbn [bind].
    destruct (Increment_local (collection job) (fst st1)) as (x' & -> & Hk & Hd).
    cbn [bind]. exists (x', snd st1). split; [reflexivity|]. cbn [fst snd].
    split; [|split; [left; congruence|exact Hg]].
    intros n p Hn Hp. apply Hk; [exact Hn|]. now apply Hp1.
Qed.

(** X16: a turn of the loop is about one job.  Once [Next()] has returned
    a job, the loop body runs to its end whatever the archive answers; it
    keeps the stored page of every other job, leaves the done log as it
    was or appends one record, of the job's name, and only adds to the
    hash store. *)
Theorem turn_touches_one_job (a : Archive) (st : stores) (job : Job) :
  Tasks.Next (fst st) = Run job ->
  exists st',
    loop_body a st = Run st'
    /\ keeps_others (collection job) (fst st) (fst st')
    /\ log_step (collection job) (fst st) (fst st')
    /\ store_grows (snd st) (snd st').
Proof.
  intros Hnext. unfold loop_body. rewrite Hnext. cbn [bind].
  destruct (NewCollectionSubset a (collection job) batchSize (page job)) as [co|e1].
  { apply batch_local. }
  cbn [collection page].
  destruct (NewCollectionSubset a (collection job) batchSize (GoInt.incr (page job)))
    as [co|e2].
  - destruct (Increment_local (collection job) (fst st)) as (x1 & -> & Hk1 & Hd1).
    cbn [bind].
    destruct (batch_local a {| collection := collection job;
                               page := GoInt.incr (page job) |} co (x1, snd st))
      as (st' & -> & Hk & Hl & Hg).
    cbn [fst snd collection] in *. exists st'. split; [reflexivity|].
    split; [|split; [|exact Hg]].
    + intros n p Hn Hp. apply Hk; [exact Hn|]. now apply Hk1.
    + unfold log_step in *. now rewrite Hd1 in Hl.
  - destruct (Remove_local {| collection := collection job;
                              page := GoInt.incr (page job) |} e2 (fst st))
      as (x' & -> & Hk & Hl).
    cbn [bind collection] in *. exists (x', snd st). split; [reflexivity|].
    split; [exact Hk|]. split; [exact Hl|apply store_grows_refl].
Qed.

(** The jobs [{A:3, B:1, C:1}] on the archive that is down: [B] is
    retired, and [A] and [C] keep their pages. *)
Lemma turn_touches_one_job_witness :
  exists st',
    loop_body archive_down (ledger_ABC, store0) = Run st'
    /\ keeps_others "B" ledger_ABC (fst st')
    /\ log_step "B" ledger_ABC (fst st')
    /\ store_grows store0 (snd st').
Proof.
  apply (turn_touches_one_job archive_down (ledger_ABC, store0)
           {| collection := "B"; page := 1 |}).
  reflexivity.
Defined.

Lemma NewEntry_has_item (im : ItemMetadata) (item : string) (s : Storage.t) :
  Files im <> [] ->
  has_item item (Storage.items (fst (Storage.NewEntry im item s))) = true.
Proof.
  intros Hne. destruct (NewEntry_shape im item s)
    as [(-> & _ & [H|H])|(_ & _ & Hi & _)]; [contradiction|exact H|].
  rewrite Hi. unfold has_item. rewrite existsb_app. cbn.
  rewrite String.eqb_refl. now rewrite orb_true_r.
Qed.

Lemma store_grows_has_item (s s' : Storage.t) (name : string) :
  store_grows s s' ->
  has_item name (Storage.items s) = true -> has_item name (Storage.items s') = true.
Proof.
  intros (mi & _ & Hi & _) H. rewrite Hi. unfold has_item in *.
  now rewrite existsb_app, H.
Qed.

(** X17: what a batch leaves behind.  The loop over the entries of a page
    runs to its end; after it every entry the archive describes as a
    collection is an active job, and every other entry described with at
    least one file has its item row in the hash store. *)
Theorem batch_entries_recorded (a : Archive) (names : list string) :
  forall st : stores,
  exists st',
    items a names st = Run st'
    /\ forall name im,
        In name names -> NewItemMetadata a name = Ok im ->
        (IsCollection im = true -> has_job name (Tasks.active (fst st')) = true)
        /\ (IsCollection im = false -> Files im <> [] ->
            has_item name (Storage.items (snd st')) = true).
Proof.
  induction names as [|name0 names IH]; intros st.
  - exists st. split; [reflexivity|]. intros name im [].
  - cbn [items].
    destruct (item_step_spec a st name0) as (st1 & Hstep & _).
    rewrite Hstep. cbn [bind].
    destruct (IH st1) as (st' & Hrun & Hrest). exists st'. split; [exact Hrun|].
    destruct (items_spec a names st1) as (st2 & Hrun2 & _ & Hpages).
    rewrite Hrun in Hrun2. injection Hrun2 as <-.
    pose proof (items_store_grows a names st1 st' Hrun) as Hgrow.
    intros name im [<-|Hin] Hmeta; [|now apply Hrest].
    unfold item_step in Hstep. rewrite Hmeta in Hstep. split.
    + intros Hc. rewrite Hc in Hstep.
      destruct (Add_spec name0 (fst st)) as (x' & Hadd & Hjobs & _).
      rewrite Hadd in Hstep. cbn [bind] in Hstep. injection Hstep as <-.
      cbn [fst] in Hpages. apply stored_page_has_job.
      assert (H1 : exists p, stored_page name0 (Tasks.active x') = Some p).
      { apply stored_page_has_job. rewrite Hjobs.
        destruct (has_job name0 (Tasks.active (fst st))) eqn:E; [exact E|].
        unfold has_job. rewrite existsb_app. cbn. rewrite String.eqb_refl.
        now rewrite orb_true_r. }
      destruct H1 as [p Hp]. exists p. now apply Hpages.
    + intros Hc Hne. rewrite Hc in Hstep. injection Hstep as <-.
      eapply store_grows_has_item; [exact Hgrow|]. cbn [snd].
      now apply NewEntry_has_item.
Qed.

(** The two entries of the archive's page: [subB] becomes a job, [leafA]
    an item row. *)
Lemma batch_entries_recorded_witness :
  exists st',
    items archive_retry_full ["leafA"; "subB"] seeded = Run st'
    /\ forall name im,
        In name ["leafA"; "subB"] -> NewItemMetadata archive_retry_full name = Ok im ->
        (IsCollection im = true -> has_job name (Tasks.active (fst st')) = true)
        /\ (IsCollection im = false -> Files im <> [] ->
            has_item name (Storage.items (snd st')) = true).
Proof. exact (batch_entries_recorded archive_retry_full ["leafA"; "subB"] seeded). Defined.

(** ** The whole of [main] *)

Lemma Add_ledger (n dsn : string) (rows : list Job) (recs : list DoneRecord) (L : Z) :
  Tasks.Add n (ledger dsn rows recs L)
  = Run (ledger dsn (if has_job n rows then rows else rows ++ [first_page n]) recs
                (GoInt.incr L)).
Proof.
  unfold Tasks.Add. rewrite hasDone_unbound.
  unfold sql.Scan1, sql.Exec, sql.call, ledger, first_page.
  cbn [List.length Nat.eqb sql.NumInput Tasks.add sql.denote sql.tables
       sql.dataSourceName Tasks.db Tasks.length jobs done].
  now destruct (has_job n rows).
Qed.

Lemma Remove_ledger (job : Job) (reason dsn : string) (rows : list Job)
  (recs : list DoneRecord) (L : Z) :
  Tasks.Remove job reason (ledger dsn rows recs L)
  = Run (ledger dsn
           (filter (fun j => negb (String.eqb (collection j) (collection job))) rows)
           (if has_done (collection job) recs then recs
            else recs ++ [{| done_name := collection job; done_page := page job;
                             done_reason := reason |}])
           (GoInt.decr L)).
Proof.
  unfold Tasks.Remove, sql.Exec, sql.call, ledger.
  cbn [List.length Nat.eqb sql.NumInput Tasks.remove Tasks.remember sql.denote
       sql.tables sql.dataSourceName Tasks.db Tasks.length jobs done].
  now destruct (has_done (collection job) recs).
Qed.

Lemma has_job_first_page (n : string) (seen : list string) :
  has_job n (map first_page seen) = existsb (fun m => String.eqb m n) seen.
Proof.
  unfold has_job. induction seen as [|m seen IH]; cbn; [reflexivity|].
  now rewrite IH.
Qed.

Lemma existsb_eqb_In (n : string) (seen : list string) :
  existsb (fun m => String.eqb m n) seen = true <-> In n seen.
Proof.
  rewrite existsb_exists. split.
  - intros (m & Hin & E). apply String.eqb_eq in E. now subst.
  - intros Hin. exists n. split; [exact Hin|apply String.eqb_refl].
Qed.

Lemma seed_ledger (dsn : string) (recs : list DoneRecord) (args : list string) :
  forall (seen : list string) (L : Z),
    GoInt.min_int <= L ->
    L + Z.of_nat (List.length args) <= GoInt.max_int ->
    seed args (ledger dsn (map first_page seen) recs L)
    = Run (ledger dsn (map first_page (seen ++ firsts seen args)) recs
                  (L + Z.of_nat (List.length args))).
Proof.
  induction args as [|n rest IH]; intros seen L Hlo Hhi; cbn [seed firsts List.length].
  - rewrite app_nil_r. now replace (L + Z.of_nat 0) with L by lia.
  - rewrite Add_ledger, has_job_first_page. cbn [bind].
    cbn [List.length] in Hhi. rewrite Nat2Z.inj_succ in *.
    rewrite incr_in_range by lia.
    destruct (existsb (fun m => String.eqb m n) seen).
    + rewrite IH by lia. do 2 f_equal. lia.
    + replace (map first_page seen ++ [first_page n])
        with (map first_page (seen ++ [n])) by now rewrite map_app.
      rewrite IH by lia. rewrite <- app_assoc. cbn [app]. do 2 f_equal. lia.
Qed.

Lemma firsts_In (args : list string) :
  forall seen n, In n (firsts seen args) -> In n args /\ ~ In n seen.
Proof.
  induction args as [|m rest IH]; intros seen n; cbn [firsts]; [intros []|].
  destruct (existsb (fun k => String.eqb k m) seen) eqn:E.
  - intros H. apply IH in H. split; [now right|tauto].
  - intros [<-|H].
    + split; [now left|]. intros Hin. apply existsb_eqb_In in Hin. congruence.
    + apply IH in H. destruct H as [H1 H2]. split; [now right|].
      intros Hin. apply H2. apply in_or_app. now left.
Qed.

Lemma firsts_NoDup (args : list string) :
  forall seen, NoDup (firsts seen args).
Proof.
  induction args as [|m rest IH]; intros seen; cbn [firsts]; [constructor|].
  destruct (existsb (fun k => String.eqb k m) seen); [apply IH|].
  constructor; [|apply IH]. intros Hin. apply firsts_In in Hin.
  destruct Hin as [_ Hnot]. apply Hnot. apply in_or_app. right. now left.
Qed.

Lemma firsts_length (args : list string) :
  forall seen,
    (List.length (firsts seen args) <= List.length args)%nat
    /\ (List.length (firsts seen args) = List.length args ->
        NoDup args /\ forall n, In n args -> ~ In n seen).
Proof.
  induction args as [|m rest IH]; intros seen; cbn [firsts List.length].
  - split; [lia|]. intros _. split; [constructor|intros n []].
  - destruct (existsb (fun k => String.eqb k m) seen) eqn:E.
    + destruct (IH seen) as [Hle _]. split; [lia|]. intros H. lia.
    + cbn [List.length]. destruct (IH (seen ++ [m])) as [Hle Heq].
      split; [lia|]. intros H. destruct Heq as [Hnd Hnot]; [lia|].
      split.
      * constructor; [|exact Hnd]. intros Hin. apply (Hnot m Hin).
        apply in_or_app. right. now left.
      * intros n [<-|Hin].
        -- intros Hs. apply existsb_eqb_In in Hs. congruence.
        -- intros Hs. apply (Hnot n Hin). apply in_or_app. now left.
Qed.

Lemma firsts_NoDup_id (args : list string) :
  forall seen, NoDup args -> (forall n, In n args -> ~ In n seen) ->
               firsts seen args = args.
Proof.
  induction args as [|m rest IH]; intros seen Hnd Hnot; cbn [firsts]; [reflexivity|].
  inversion Hnd as [|? ? Hm Hnd']; subst.
  destruct (existsb (fun k => String.eqb k m) seen) eqn:E.
  - apply existsb_eqb_In in E. elim (Hnot m); [now left|exact E].
  - f_equal. apply IH; [exact Hnd'|].
    intros n Hin Hs. apply in_app_or in Hs. destruct Hs as [Hs|[<-|[]]].
    + apply (Hnot n); [now right|exact Hs].
    + contradiction.
Qed.

Lemma order_first_pages (n : string) (rest : list string) :
  order_by_page_limit_1 (map first_page (n :: rest)) = Some (first_page n).
Proof.
  cbn [map order_by_page_limit_1].
  destruct (order_by_page_limit_1 (map first_page rest)) as [m|] eqn:E; [|reflexivity].
  apply order_by_page_limit_1_least in E. destruct E as [Hin _].
  apply in_map_iff in Hin. destruct Hin as (k & <- & _). reflexivity.
Qed.

Lemma crawl_empty_collections (a : Archive) (intr : nat -> bool) (dsn : string)
  (s : Storage.t) :
  (forall i, intr i = false) ->
  forall (names : list string) (recs : list DoneRecord) (L : Z) (turn : nat),
    NoDup names ->
    (forall n, In n names -> has_done n recs = false) ->
    (forall n, In n names -> advancedsearch a n batchSize 1 = Ok []) ->
    Z.of_nat (List.length names) <= L <= GoInt.max_int ->
    crawl (S (List.length names)) a intr turn
          (ledger dsn (map first_page names) recs L, s)
    = Some (if L =? Z.of_nat (List.length names)
            then Run (ledger dsn [] (recs ++ map exhausted names) 0, s)
            else Fatal sql.ErrNoRows).
Proof.
  intros Hintr. induction names as [|n rest IH]; intros recs L turn Hnd Hnew Hempty HL.
  - cbn [List.length map] in *. cbn [crawl fst]. unfold Tasks.Len. cbn [ledger Tasks.length].
    destruct (L =? Z.of_nat 0) eqn:E.
    + apply Z.eqb_eq in E. subst L. cbn. now rewrite app_nil_r.
    + apply Z.eqb_neq in E. replace (L >? 0) with true
        by (symmetry; rewrite Z.gtb_ltb; apply Z.ltb_lt; lia).
      rewrite Hintr. reflexivity.
  - cbn [List.length] in *. rewrite Nat2Z.inj_succ in *.
    inversion Hnd as [|? ? Hn Hnd']; subst.
    change (crawl (S (S (List.length rest))) a intr turn
              (ledger dsn (map first_page (n :: rest)) recs L, s))
      with (if Tasks.Len (ledger dsn (map first_page (n :: rest)) recs L) >? 0
            then if intr turn then Some (Run (ledger dsn (map first_page (n :: rest)) recs L, s))
                 else match loop_body a (ledger dsn (map first_page (n :: rest)) recs L, s) with
                      | Fatal e => Some (Fatal e)
                      | Run st' => crawl (S (List.length rest)) a intr (S turn) st'
                      end
            else Some (Run (ledger dsn (map first_page (n :: rest)) recs L, s))).
    unfold Tasks.Len at 1. cbn [ledger Tasks.length].
    replace (L >? 0) with true by (symmetry; rewrite Z.gtb_ltb; apply Z.ltb_lt; lia).
    rewrite Hintr. unfold loop_body. cbn [fst snd].
    rewrite Next_spec. unfold Tasks.active at 1.
    cbn [ledger Tasks.db sql.tables jobs]. rewrite order_first_pages. cbn [bind].
    unfold NewCollectionSubset. cbn [first_page collection page].
    change ((batchSize <? 1) || (1 <? 1)) with false. cbv iota.
    rewrite (Hempty n) by now left.
    unfold batch. cbn [Buf List.length Nat.eqb fst snd].
    fold (ledger dsn (first_page n :: map first_page rest) recs L).
    rewrite Remove_ledger. cbn [bind collection page first_page map filter].
    rewrite String.eqb_refl. cbn [negb].
    rewrite (Hnew n) by now left.
    rewrite filter_no_job.
    2:{ rewrite has_job_first_page. destruct (existsb _ rest) eqn:E; [|reflexivity].
        apply existsb_eqb_In in E. contradiction. }
    rewrite decr_in_range by (unfold GoInt.min_int; lia).
    fold (exhausted n).
    rewrite IH.
    + rewrite <- app_assoc. cbn [app map].
      destruct (L - 1 =? Z.of_nat (List.length rest)) eqn:E1,
               (L =? Z.succ (Z.of_nat (List.length rest))) eqn:E2;
        rewrite ?Z.eqb_eq, ?Z.eqb_neq in *; try reflexivity; lia.
    + exact Hnd'.
    + intros m Hm. unfold has_done. rewrite existsb_app. cbn.
      fold (has_done m recs). rewrite (Hnew m) by now right. cbn.
      destruct (String.eqb n m) eqn:E; [|reflexivity].
      apply String.eqb_eq in E. subst m. contradiction.
    + intros m Hm. apply Hempty. now right.
    + lia.
Qed.

Lemma main_empty_collections (args : list string) (a : Archive) (intr : nat -> bool)
  (hash_files : string -> HashTables) (ledger_files : string -> LedgerTables) :
  ledger_files "working.db" = no_rows ->
  (forall n, In n args -> advancedsearch a n batchSize 1 = Ok []) ->
  (forall i, intr i = false) ->
  Z.of_nat (List.length args) <= GoInt.max_int ->
  main (S (List.length (firsts [] args))) hash_files ledger_files args a intr
  = Some (if Z.of_nat (List.length args) =? Z.of_nat (List.length (firsts [] args))
          then Run (ledger "working.db" [] (map exhausted (firsts [] args)) 0,
                    {| Storage.db := sql.Open hash_files "hashes.db" |})
          else Fatal sql.ErrNoRows).
Proof.
  intros Hfresh Hempty Hintr Hlen. unfold main, NewStorage, NewTasks, sql.Open.
  rewrite Hfresh. cbn [no_rows jobs sql.tables List.length Z.of_nat].
  change (seed args _) with (seed args (ledger "working.db" (map first_page []) [] 0)).
  rewrite seed_ledger by (unfold GoInt.min_int; lia).
  cbn [app Z.add].
  rewrite (crawl_empty_collections a intr "working.db" _ Hintr).
  - reflexivity.
  - apply firsts_NoDup.
  - reflexivity.
  - intros n Hin. apply Hempty. now apply firsts_In in Hin.
  - destruct (firsts_length args []) as [Hle _]. lia.
Qed.

(** X18: a whole run over empty collections.  Started on a new ledger
    with arguments that are all different, against an archive where the
    first page of each of them is empty, and not interrupted, [main] ends
    after one turn for each argument, having added nothing to the hash
    store: no job is left, the live count is 0, and the done log holds the
    arguments in their order, each at page 1 with the empty reason. *)
Theorem main_drains_empty_collections (args : list string) (a : Archive)
  (intr : nat -> bool) (hash_files : string -> HashTables)
  (ledger_files : string -> LedgerTables) :
  NoDup args ->
  Z.of_nat (List.length args) <= GoInt.max_int ->
  ledger_files "working.db" = no_rows ->
  (forall n, In n args -> advancedsearch a n batchSize 1 = Ok []) ->
  (forall i, intr i = false) ->
  exists tasks,
    main (S (List.length args)) hash_files ledger_files args a intr
    = Some (Run (tasks, {| Storage.db := sql.Open hash_files "hashes.db" |}))
    /\ Tasks.active tasks = []
    /\ Tasks.resolved tasks = map exhausted args
    /\ Tasks.Len tasks = 0.
Proof.
  intros Hnd Hlen Hfresh Hempty Hintr.
  pose proof (main_empty_collections args a intr hash_files ledger_files
                Hfresh Hempty Hintr Hlen) as Hmain.
  rewrite (firsts_NoDup_id args [] Hnd) in Hmain by (intros n _ []).
  rewrite Z.eqb_refl in Hmain. eexists. split; [exact Hmain|]. repeat split.
Qed.

(** The arguments [A], [B] and [C] on the archive without entries. *)
Lemma main_drains_empty_collections_witness :
  exists tasks,
    main 4 (fun _ => no_hashes) (fun _ => no_rows) ["A"; "B"; "C"] archive_empty
         (fun _ => false)
    = Some (Run (tasks, {| Storage.db := sql.Open (fun _ => no_hashes) "hashes.db" |}))
    /\ Tasks.active tasks = []
    /\ Tasks.resolved tasks = map exhausted ["A"; "B"; "C"]
    /\ Tasks.Len tasks = 0.
Proof.
  apply (main_drains_empty_collections ["A"; "B"; "C"] archive_empty (fun _ => false)
           (fun _ => no_hashes) (fun _ => no_rows)).
  - repeat constructor; cbn; intuition discriminate.
  - unfold GoInt.max_int. cbn. lia.
  - reflexivity.
  - reflexivity.
  - reflexivity.
Defined.

(** X19: a repeated argument ends the run by [log.Fatal].  Started on a
    new ledger with arguments of which one occurs twice, against an
    archive where the first page of each of them is empty, and not
    interrupted, [main] retires every collection and then, the live count
    still above zero, asks [Next()] for a job of the empty table: the
    process ends with "no rows". *)
Theorem main_repeated_argument (args : list string) (a : Archive)
  (intr : nat -> bool) (hash_files : string -> HashTables)
  (ledger_files : string -> LedgerTables) :
  ~ NoDup args ->
  Z.of_nat (List.length args) <= GoInt.max_int ->
  ledger_files "working.db" = no_rows ->
  (forall n, In n args -> advancedsearch a n batchSize 1 = Ok []) ->
  (forall i, intr i = false) ->
  exists fuel,
    main fuel hash_files ledger_files args a intr = Some (Fatal sql.ErrNoRows).
Proof.
  intros Hdup Hlen Hfresh Hempty Hintr.
  exists (S (List.length (firsts [] args))).
  rewrite (main_empty_collections args a intr hash_files ledger_files
             Hfresh Hempty Hintr Hlen).
  destruct (Z.of_nat (List.length args) =? Z.of_nat (List.length (firsts [] args))) eqn:E;
    [|reflexivity].
  apply Z.eqb_eq in E. destruct (firsts_length args []) as [_ Heq].
  elim Hdup. apply Heq. lia.
Qed.

(** The argument [n] given twice, on the archive without entries. *)
Lemma main_repeated_argument_witness :
  exists fuel,
    main fuel (fun _ => no_hashes) (fun _ => no_rows) ["n"; "n"] archive_empty
         (fun _ => false)
    = Some (Fatal sql.ErrNoRows).
Proof.
  apply (main_repeated_argument ["n"; "n"] archive_empty (fun _ => false)
           (fun _ => no_hashes) (fun _ => no_rows)).
  - intros H. inversion H as [|? ? Hnot _]. apply Hnot. now left.
  - unfold GoInt.max_int. cbn. lia.
  - reflexivity.
  - reflexivity.
  - reflexivity.
Defined.
